(** * Go-Back-N ARQ over UDP: sender, receiver and metrics

    A shallow embedding of [gbn_client.py], [gbn_server.py] and the metric
    computation of [gbn_demo.py], and the properties of the protocol engine
    proved about it.

    Modelling conventions.
    - Python integers are [Z]; dictionaries keyed by sequence numbers are
      [gmap Z _]; [range(a, b)] is [seqZ a (b - a)].
    - A call of [log_event] appends one entry to [log_entries]; an entry keeps
      the event type and the sequence number, the rendered text and the clock
      reading are left out (so are the [timestamp] fields of the datagrams).
    - The random source and the UDP socket are the environment: every
      transmission attempt is handed an [attempt] that fixes the value drawn by
      [random.random()] and whether [socket.sendto] returns or raises.
    - [threading.Timer] objects live in a heap ([timer_heap]); a handle is the
      index of the object, [cancel] sets its flag, a new Timer is appended.
    - What [json.loads] returns is a [json] value.  Where the code compares
      or calculates with a decoded number it is taken by its value: Python's
      [==], [<] and [>=] treat [True] as [1] and [1.0] as [1], so a sequence
      number that arrived as a bool or as a whole float is recorded as the
      integer it equals.
    - The method-level relations ([step]) run every method atomically; the
      statement-level relation ([thread_step]) lets the threads interleave
      between any two statements outside a [with self.timer_lock] block.
    - Python floats are exact rationals ([Q]). *)

From Stdlib Require Import ZArith QArith Lia.
From stdpp Require Import base gmap list strings list_numbers pretty.

Local Open Scope Z_scope.

(** ** Shared vocabulary *)

(** One line of [log_entries]: [log_event(event_type, seq_num, message)]. *)
Record log_entry : Type := LogEntry {
  event_type : string;
  event_seq : option Z
}.

(** What the environment decides for one transmission attempt. *)
Record attempt : Type := Attempt {
  rnd : Q;            (* value returned by random.random() if it is called *)
  sendto_ok : bool    (* socket.sendto returns (true) or raises (false) *)
}.

Definition Qlt_bool (x y : Q) : bool := negb (Qle_bool y x).

(** The Bernoulli trial of [simulate_packet_loss] / [simulate_ack_loss]:
    [if p > 0: lost = random.random() < p ... return lost] else [False]. *)
Definition loss_trial (p : Q) (a : attempt) : bool :=
  if Qlt_bool 0 p then Qlt_bool (rnd a) p else false.

(** A transmission attempt reaches the socket: the loss trial keeps the
    datagram and [sendto] returns. *)
Definition delivered (p : Q) (a : attempt) : bool :=
  negb (loss_trial p a) && sendto_ok a.

(** An attempt on a perfect channel. *)
Definition clean : attempt := Attempt 0 true.

(** ** Decoded datagrams *)

(** A Python float; the finite ones by their exact value. *)
Inductive pyfloat : Type :=
| Finite (q : Q)
| Infinity (negative : bool)
| NaN.

(** A value returned by [json.loads]. *)
#[local] Unset Elimination Schemes.
Inductive json : Type :=
| JNull
| JBool (b : bool)
| JInt (z : Z)
| JFloat (f : pyfloat)
| JString (s : string)
| JArray (items : list json)
| JObject (members : list (string * json)).
#[local] Set Elimination Schemes.

Coercion JString : string >-> json.

(** The values that are Python [int]s ([bool] is a subclass of [int]). *)
Definition as_int (v : json) : option Z :=
  match v with
  | JInt z => Some z
  | JBool b => Some (Z.b2z b)
  | _ => None
  end.

(** [v == n] for an [int] [n]: never raises, numbers compare by value. *)
Definition py_eq (v : json) (n : Z) : bool :=
  match v with
  | JInt z => z =? n
  | JBool b => Z.b2z b =? n
  | JFloat (Finite q) => Qeq_bool q (inject_Z n)
  | _ => false
  end.

(** [v < n] for an [int] [n]; [None] is the [TypeError] that comparing
    [None], a string, a list or a dict with an [int] raises. *)
Definition py_lt (v : json) (n : Z) : option bool :=
  match v with
  | JInt z => Some (z <? n)
  | JBool b => Some (Z.b2z b <? n)
  | JFloat (Finite q) => Some (Qlt_bool q (inject_Z n))
  | JFloat (Infinity negative) => Some negative
  | JFloat NaN => Some false
  | _ => None
  end.

(** [v >= n] for an [int] [n]. *)
Definition py_ge (v : json) (n : Z) : option bool :=
  match v with
  | JInt z => Some (n <=? z)
  | JBool b => Some (n <=? Z.b2z b)
  | JFloat (Finite q) => Some (Qle_bool (inject_Z n) q)
  | JFloat (Infinity negative) => Some (negb negative)
  | JFloat NaN => Some false
  | _ => None
  end.

(** The sequence number a log entry keeps when [log_event] is handed [v]:
    the whole number that [v] equals.  [None] is logged without a number;
    the text written for any other value is left out like the rest of the
    text of an entry. *)
Definition whole (v : json) : option Z :=
  match v with
  | JInt z => Some z
  | JBool b => Some (Z.b2z b)
  | JFloat (Finite q) =>
      if Qnum q mod Zpos (Qden q) =? 0 then Some (Qnum q / Zpos (Qden q))
      else None
  | _ => None
  end.

(** ** The sender: [GBNClient] *)
Module GBNClient.

Record stats_t : Type := Stats {
  packets_sent : Z;
  packets_received : Z;
  retransmissions : Z;
  acks_received : Z;
  packets_lost : Z
}.

(** The datagram built by [create_packet]. *)
Record packet : Type := Packet {
  pkt_seq_num : Z;
  pkt_data : string
}.

(** A [threading.Timer(timeout, timeout_handler, [seq_num])] object. *)
Record timer_obj : Type := TimerObj {
  timer_arg : Z;
  timer_cancelled : bool
}.

Record client : Type := Client {
  window_size : Z;
  base : Z;
  next_seq_num : Z;
  window : gmap Z string;
  timers : gmap Z nat;
  timer_heap : list timer_obj;
  loss_probability : Q;
  stats : stats_t;
  log_entries : list log_entry;
  running : bool;
  sock : list packet          (* datagrams accepted by socket.sendto *)
}.

(** [__init__] *)
Definition init (window_size : Z) (loss_probability : Q) : client :=
  {| window_size := window_size; base := 0; next_seq_num := 0;
     window := ∅; timers := ∅; timer_heap := [];
     loss_probability := loss_probability;
     stats := Stats 0 0 0 0 0; log_entries := []; running := false;
     sock := [] |}.

(** Field updates. *)
Definition set_base (v : Z) (c : client) : client :=
  Client (window_size c) v (next_seq_num c) (window c) (timers c)
         (timer_heap c) (loss_probability c) (stats c) (log_entries c)
         (running c) (sock c).
Definition set_next_seq_num (v : Z) (c : client) : client :=
  Client (window_size c) (base c) v (window c) (timers c)
         (timer_heap c) (loss_probability c) (stats c) (log_entries c)
         (running c) (sock c).
Definition set_window (v : gmap Z string) (c : client) : client :=
  Client (window_size c) (base c) (next_seq_num c) v (timers c)
         (timer_heap c) (loss_probability c) (stats c) (log_entries c)
         (running c) (sock c).
Definition set_timers (v : gmap Z nat) (h : list timer_obj) (c : client) : client :=
  Client (window_size c) (base c) (next_seq_num c) (window c) v
         h (loss_probability c) (stats c) (log_entries c)
         (running c) (sock c).
Definition set_stats (v : stats_t) (c : client) : client :=
  Client (window_size c) (base c) (next_seq_num c) (window c) (timers c)
         (timer_heap c) (loss_probability c) v (log_entries c)
         (running c) (sock c).
Definition set_log_entries (v : list log_entry) (c : client) : client :=
  Client (window_size c) (base c) (next_seq_num c) (window c) (timers c)
         (timer_heap c) (loss_probability c) (stats c) v
         (running c) (sock c).
Definition set_running (v : bool) (c : client) : client :=
  Client (window_size c) (base c) (next_seq_num c) (window c) (timers c)
         (timer_heap c) (loss_probability c) (stats c) (log_entries c)
         v (sock c).
Definition set_sock (v : list packet) (c : client) : client :=
  Client (window_size c) (base c) (next_seq_num c) (window c) (timers c)
         (timer_heap c) (loss_probability c) (stats c) (log_entries c)
         (running c) v.

Definition incr_packets_sent (s : stats_t) : stats_t :=
  Stats (packets_sent s + 1) (packets_received s) (retransmissions s)
        (acks_received s) (packets_lost s).
Definition incr_retransmissions (s : stats_t) : stats_t :=
  Stats (packets_sent s) (packets_received s) (retransmissions s + 1)
        (acks_received s) (packets_lost s).
Definition incr_acks_received (s : stats_t) : stats_t :=
  Stats (packets_sent s) (packets_received s) (retransmissions s)
        (acks_received s + 1) (packets_lost s).
Definition incr_packets_lost (s : stats_t) : stats_t :=
  Stats (packets_sent s) (packets_received s) (retransmissions s)
        (acks_received s) (packets_lost s + 1).

(** [log_event]: [self.log_entries.append(log_entry)]. *)
Definition log_event (ev : string) (seq : option Z) (c : client) : client :=
  set_log_entries (log_entries c ++ [LogEntry ev seq]) c.

(** [create_packet] *)
Definition create_packet (seq_num : Z) (data : string) : packet :=
  Packet seq_num data.

(** [simulate_packet_loss]: the verdict, and the state with [packets_lost]
    counted when the packet is lost. *)
Definition simulate_packet_loss (a : attempt) (c : client) : bool * client :=
  if loss_trial (loss_probability c) a
  then (true, set_stats (incr_packets_lost (stats c)) c)
  else (false, c).

(** [send_packet] *)
Definition send_packet (seq_num : Z) (data : string) (is_retransmission : bool)
    (a : attempt) (c : client) : client :=
  let packet := create_packet seq_num data in
  let '(lost, c1) := simulate_packet_loss a c in
  if lost then log_event "LOSS" (Some seq_num) c1
  else if sendto_ok a then
    let c2 := set_sock (sock c1 ++ [packet]) c1 in
    let c3 := set_stats (incr_packets_sent (stats c2)) c2 in
    if is_retransmission
    then log_event "RETX" (Some seq_num)
           (set_stats (incr_retransmissions (stats c3)) c3)
    else log_event "SEND" (Some seq_num) c3
  else log_event "ERROR" (Some seq_num) c1.

(** [Timer.cancel()] on the object behind a handle. *)
Definition cancel (h : nat) (heap : list timer_obj) : list timer_obj :=
  alter (fun t => TimerObj (timer_arg t) true) h heap.

(** [start_timer] *)
Definition start_timer (seq_num : Z) (c : client) : client :=
  let heap1 :=
    match timers c !! seq_num with
    | Some h => cancel h (timer_heap c)
    | None => timer_heap c
    end in
  let timer := length heap1 in
  log_event "TIMER_START" (Some seq_num)
    (set_timers (<[seq_num := timer]> (timers c))
                (heap1 ++ [TimerObj seq_num false]) c).

(** [stop_timer] *)
Definition stop_timer (seq_num : Z) (c : client) : client :=
  match timers c !! seq_num with
  | Some h =>
      log_event "TIMER_STOP" (Some seq_num)
        (set_timers (delete seq_num (timers c)) (cancel h (timer_heap c)) c)
  | None => c
  end.

(** Body of the loop of [timeout_handler] for one [i]. *)
Definition retransmit_one (atts : Z → attempt) (c : client) (i : Z) : client :=
  match window c !! i with
  | Some data => start_timer i (send_packet i data true (atts i) c)
  | None => c
  end.

(** [timeout_handler]; [atts i] is the environment's verdict for the
    retransmission of [i] during this firing. *)
Definition timeout_handler (seq_num : Z) (atts : Z → attempt) (c : client) : client :=
  if negb (running c) then c
  else
    let c1 := log_event "TIMEOUT" (Some seq_num) c in
    foldl (retransmit_one atts) c1
          (seqZ (base c1) (next_seq_num c1 - base c1)).

(** Body of the loop [for seq in range(self.base, ack_num + 1)]. *)
Definition ack_one (c : client) (seq : Z) : client :=
  let c1 := stop_timer seq c in
  match window c1 !! seq with
  | Some _ => set_window (delete seq (window c1)) c1
  | None => c1
  end.

(** The [try] block of [receive_acks] for a datagram that decodes to an
    acknowledgment carrying [ack_num]. *)
Definition on_ack (ack_num : Z) (c : client) : client :=
  let c1 := set_stats (incr_acks_received (stats c)) c in
  let c2 := log_event "ACK_RECV" (Some ack_num) c1 in
  if base c2 <=? ack_num then
    let c3 := foldl ack_one c2 (seqZ (base c2) (ack_num + 1 - base c2)) in
    log_event "WINDOW_UPDATE" None (set_base (ack_num + 1) c3)
  else c2.

(** The [try] block of [receive_acks] for a datagram that decodes to a
    record whose ['ack_num'] is any JSON value, under the handler
    [except Exception].  A value that is no [int] is counted and logged
    before the comparison with [base] or the call of [range] raises
    [TypeError]; nothing of the window has been touched by then. *)
Definition on_ack_value (ack_num : json) (c : client) : client :=
  match as_int ack_num with
  | Some k => on_ack k c
  | None =>
      let c1 := set_stats (incr_acks_received (stats c)) c in
      let c2 := log_event "ACK_RECV" (whole ack_num) c1 in
      match py_ge ack_num (base c2) with
      | Some false => c2
      | _ => if running c2 then log_event "ERROR" None c2 else c2
      end
  end.

(** What [socket.recvfrom] hands to one iteration of [receive_acks]. *)
Inductive recvfrom_result : Type :=
| SocketTimeout
| AckDatagram (ack_num : Z)   (* a record whose 'ack_num' is an integer *)
| BadDatagram                 (* no UTF-8, no JSON, no record, no 'ack_num',
                                 or recvfrom raises another error *)
| OtherAck (ack_num : json).  (* a record whose 'ack_num' is anything *)

(** One iteration of [while self.running] in [receive_acks]. *)
Definition receive_acks_iter (r : recvfrom_result) (c : client) : client :=
  if running c then
    match r with
    | SocketTimeout => c
    | AckDatagram ack_num => on_ack ack_num c
    | BadDatagram => log_event "ERROR" None c
    | OtherAck ack_num => on_ack_value ack_num c
    end
  else c.

(** The number that a datagram acknowledges, if it gets that far. *)
Definition ack_number (r : recvfrom_result) : option Z :=
  match r with
  | AckDatagram k => Some k
  | OtherAck v => as_int v
  | _ => None
  end.

(** [receive_acks] over the datagrams that arrive. *)
Definition receive_acks (rs : list recvfrom_result) (c : client) : client :=
  foldl (fun c r => receive_acks_iter r c) c rs.

(** Guard of the inner loop of [send_data] as far as the window goes. *)
Definition window_has_room (c : client) : bool :=
  Z.of_nat (size (window c)) <? window_size c.

(** Body of the inner loop of [send_data] for the message [data]. *)
Definition window_add (data : string) (a : attempt) (c : client) : client :=
  let n := next_seq_num c in
  let c1 := set_window (<[n := data]> (window c)) c in
  let c2 := send_packet n data false a c1 in
  let c3 := start_timer n c2 in
  let c4 := log_event "WINDOW_ADD" (Some n) c3 in
  set_next_seq_num (next_seq_num c4 + 1) c4.

(** The inner loop of [send_data]: takes messages while the window has room;
    returns the messages left. *)
Fixpoint fill_window (messages : list string) (atts : list attempt)
    (c : client) : list string * client :=
  match messages with
  | [] => ([], c)
  | data :: rest =>
      if window_has_room c
      then fill_window rest (tail atts) (window_add data (hd clean atts) c)
      else (messages, c)
  end.

(** Opening of [send_data]. *)
Definition session_start (c : client) : client :=
  log_event "SESSION_START" None (set_running true c).

(** Closing of [send_data]: every remaining timer cancelled, the map cleared. *)
Definition session_end (c : client) : client :=
  let c1 := set_running false c in
  let heap := map_fold (fun _ h heap => cancel h heap)
                       (timer_heap c1) (timers c1) in
  log_event "SESSION_END" None (set_timers ∅ heap c1).

(** [close] *)
Definition close (c : client) : client := set_running false c.

(** The steps of a sender: the moves that the main thread, the ACK thread and
    the timer threads make on the shared state. *)
Inductive step : client → client → Prop :=
| step_start c : step c (session_start c)
| step_add c data a :
    window_has_room c = true → step c (window_add data a c)
| step_ack c r : step c (receive_acks_iter r c)
| step_timeout c seq atts : step c (timeout_handler seq atts c)
| step_end c : size (window c) = 0%nat → step c (session_end c)
| step_close c : step c (close c).

(** The same, with a side condition on the acknowledgments that arrive:
    they only name sequence numbers that were assigned. *)
Definition ack_assigned (r : recvfrom_result) (c : client) : Prop :=
  match ack_number r with
  | Some k => k < next_seq_num c
  | None => True
  end.

Inductive step_assigned : client → client → Prop :=
| stepa_start c : step_assigned c (session_start c)
| stepa_add c data a :
    window_has_room c = true → step_assigned c (window_add data a c)
| stepa_ack c r :
    ack_assigned r c → step_assigned c (receive_acks_iter r c)
| stepa_timeout c seq atts : step_assigned c (timeout_handler seq atts c)
| stepa_end c : size (window c) = 0%nat → step_assigned c (session_end c)
| stepa_close c : step_assigned c (close c).

Definition reachable (ws : Z) (p : Q) (c : client) : Prop :=
  rtc step (init ws p) c.

(** The block under [timer_lock] at the end of [send_data]: every
    registered Timer cancelled, the registry cleared. *)
Definition clear_timers (c : client) : client :=
  set_timers ∅
    (map_fold (fun _ h heap => cancel h heap) (timer_heap c) (timers c)) c.

(** The moves of the threads of a sender on the registry of timers, statement
    by statement.  The three blocks under [timer_lock] (the bodies of
    [start_timer] and [stop_timer], and the one that ends [send_data])
    exclude each other.  Any other statement of the main thread, the ACK
    thread or a timer thread runs at any time, between any two statements of
    another thread; whatever it does to the window, [base], [next_seq_num],
    the counters, the log, the running flag or the socket, it leaves the
    registry and the Timer objects alone: [self.timers], [threading.Timer]
    and [cancel] occur in the three blocks only. *)
Inductive thread_step : client → client → Prop :=
| thread_start_timer c seq : thread_step c (start_timer seq c)
| thread_stop_timer c seq : thread_step c (stop_timer seq c)
| thread_clear_timers c : thread_step c (clear_timers c)
| thread_other c c' :
    timers c' = timers c → timer_heap c' = timer_heap c → thread_step c c'.

Definition thread_reachable (ws : Z) (p : Q) (c : client) : Prop :=
  rtc thread_step (init ws p) c.

Definition reachable_assigned (ws : Z) (p : Q) (c : client) : Prop :=
  rtc step_assigned (init ws p) c.

(** ** Vocabulary of the statements about the sender *)


(** The Timer object behind handle [h] has been cancelled. *)
Definition is_cancelled (heap : list timer_obj) (h : nat) : Prop :=
  timer_cancelled <$> heap !! h = Some true.

(** The Timer object behind handle [h] was created for [seq] and is armed. *)
Definition is_armed (heap : list timer_obj) (h : nat) (seq : Z) : Prop :=
  heap !! h = Some (TimerObj seq false).

(** Every handle stored in [timers] points into the heap (a Python reference
    never dangles). *)
Definition timers_wf (c : client) : Prop :=
  ∀ seq h, timers c !! seq = Some h → (h < length (timer_heap c))%nat.

(** The sequence numbers of [range(base, next_seq_num)] that are in the
    window: the ones [timeout_handler] goes through. *)
Definition outstanding (c : client) : list Z :=
  filter (λ i, is_Some (window c !! i))
         (seqZ (base c) (next_seq_num c - base c)).


(** The datagram that the retransmission of [i] puts on the socket, if the
    attempt gets that far; [w] is the window. *)
Definition retx_packet (p : Q) (w : gmap Z string) (atts : Z → attempt)
    (i : Z) : option packet :=
  if delivered p (atts i) then Packet i <$> w !! i else None.

(** A state without its log: two states with the same [forget_log] differ
    in their log entries only. *)
Definition forget_log (c : client) : client := set_log_entries [] c.

(** Two states agree on the window, the timers and everything else but the
    counters and the log. *)
Definition same_protocol_state (c c' : client) : Prop :=
  window_size c' = window_size c ∧ base c' = base c ∧
  next_seq_num c' = next_seq_num c ∧ window c' = window c ∧
  timers c' = timers c ∧ timer_heap c' = timer_heap c ∧
  loss_probability c' = loss_probability c ∧ running c' = running c ∧
  sock c' = sock c.

(** A small sender state used to instantiate the statements: two messages
    sent on a perfect channel, none acknowledged. *)
Definition two_in_flight : client :=
  window_add "b" clean (window_add "a" clean (session_start (init 3 0))).

(** The counters agree with the socket: every datagram that reached it was
    counted once in [packets_sent], and retransmissions are among them. *)
Definition counters_ok (c : client) : Prop :=
  packets_sent (stats c) = Z.of_nat (length (sock c)) ∧
  0 ≤ retransmissions (stats c) ≤ packets_sent (stats c).

(** The window is exactly [range(base, next_seq_num)], within the bound. *)
Definition window_ok (c : client) : Prop :=
  base c ≤ next_seq_num c ∧
  next_seq_num c - base c ≤ window_size c ∧
  Z.of_nat (size (window c)) = next_seq_num c - base c ∧
  ∀ i, is_Some (window c !! i) ↔ base c ≤ i < next_seq_num c.

(** The state reached when the first datagram to arrive acknowledges
    sequence number 5: nothing has been sent yet. *)
Definition early_ack : client :=
  receive_acks_iter (AckDatagram 5) (session_start (init 3 0)).

(** The first of two messages in flight has been acknowledged. *)
Definition one_acked : client := on_ack 0 two_in_flight.

(** The first of two messages has been acknowledged, and then a timer
    thread that had found it in the window before the acknowledgment arrived
    gets to its call of [start_timer]. *)
Definition late_timer : client := start_timer 0 one_acked.


(** Two messages in flight, a timer firing that retransmits both, and then
    the acknowledgment of the second. *)
Definition retransmitted_acked : client :=
  receive_acks_iter (AckDatagram 1)
    (timeout_handler 0 (λ _, clean) two_in_flight).

(** The number of datagrams that a firing of a timer puts on the socket. *)
Definition retx_count (atts : Z → attempt) (c : client) : Z :=
  if running c
  then Z.of_nat (length (omap (retx_packet (loss_probability c) (window c) atts)
                              (outstanding c)))
  else 0.

(** ** Vocabulary of the statements about timers and runs *)

(** The registry [timers] and the Timer objects agree: a registered handle
    points to an armed Timer created for its key, and a Timer that is not
    cancelled is the one registered for the sequence number it was created
    for. *)
Definition heap_ok (T : gmap Z nat) (H : list timer_obj) : Prop :=
  (∀ i h, T !! i = Some h → is_armed H h i) ∧
  (∀ h t, H !! h = Some t → timer_cancelled t = false →
          T !! timer_arg t = Some h).


(** Every Timer object has been cancelled. *)
Definition all_cancelled (heap : list timer_obj) : Prop :=
  ∀ h t, heap !! h = Some t → timer_cancelled t = true.

(** The base that a batch of acknowledgments leaves. *)
Definition base_after (b : Z) (ks : list Z) : Z :=
  foldr (λ k m, Z.max (k + 1) m) b ks.

(** From [c] to [c']: the configuration is kept, [base], [next_seq_num] and
    the counters do not go down. *)
Definition advances (c c' : client) : Prop :=
  window_size c' = window_size c ∧
  loss_probability c' = loss_probability c ∧
  base c ≤ base c' ∧
  next_seq_num c ≤ next_seq_num c' ∧
  packets_sent (stats c) ≤ packets_sent (stats c') ∧
  retransmissions (stats c) ≤ retransmissions (stats c') ∧
  acks_received (stats c) ≤ acks_received (stats c') ∧
  packets_lost (stats c) ≤ packets_lost (stats c').

End GBNClient.

(** ** The receiver: [GBNServer] *)
Module GBNServer.

Record stats_t : Type := Stats {
  packets_received : Z;
  packets_in_order : Z;
  packets_out_of_order : Z;
  acks_sent : Z;
  acks_lost : Z
}.

(** [client_addr]: host and port. *)
Definition address : Type := (string * Z)%type.

(** An accepted message, as appended to [received_messages]: the sequence
    number by its value, the data as it was decoded. *)
Record message : Type := Message {
  msg_seq_num : Z;
  msg_data : json
}.

(** What [json.loads(packet_data.decode('utf-8'))] makes of the bytes of a
    datagram.  For a JSON object, what is under its keys ['seq_num'] and
    ['data'], if anything: any JSON value can be there. *)
Inductive datagram : Type :=
| NotUtf8                    (* decode raises UnicodeDecodeError *)
| NotJson                    (* json.loads raises JSONDecodeError *)
| NotObject                  (* a JSON value that is no object *)
| JsonObject (seq_num : option json) (data : option json).

(** The exceptions the [try] block of [process_packet] can meet. *)
Inductive exn : Type :=
| JSONDecodeError
| KeyError (key : string)
| OtherException.            (* UnicodeDecodeError, TypeError *)

Record server : Type := Server {
  expected_seq_num : Z;
  last_ack_sent : Z;
  loss_probability : Q;
  stats : stats_t;
  log_entries : list log_entry;
  received_messages : list message;
  sock : list (Z * address)    (* ACK datagrams accepted by socket.sendto *)
}.

(** [__init__] with [reset_state] *)
Definition init (loss_probability : Q) : server :=
  {| expected_seq_num := 0; last_ack_sent := -1;
     loss_probability := loss_probability;
     stats := Stats 0 0 0 0 0; log_entries := []; received_messages := [];
     sock := [] |}.

Definition set_expected_seq_num (v : Z) (s : server) : server :=
  Server v (last_ack_sent s) (loss_probability s) (stats s) (log_entries s)
         (received_messages s) (sock s).
Definition set_last_ack_sent (v : Z) (s : server) : server :=
  Server (expected_seq_num s) v (loss_probability s) (stats s) (log_entries s)
         (received_messages s) (sock s).
Definition set_stats (v : stats_t) (s : server) : server :=
  Server (expected_seq_num s) (last_ack_sent s) (loss_probability s) v
         (log_entries s) (received_messages s) (sock s).
Definition set_log_entries (v : list log_entry) (s : server) : server :=
  Server (expected_seq_num s) (last_ack_sent s) (loss_probability s) (stats s)
         v (received_messages s) (sock s).
Definition set_received_messages (v : list message) (s : server) : server :=
  Server (expected_seq_num s) (last_ack_sent s) (loss_probability s) (stats s)
         (log_entries s) v (sock s).
Definition set_sock (v : list (Z * address)) (s : server) : server :=
  Server (expected_seq_num s) (last_ack_sent s) (loss_probability s) (stats s)
         (log_entries s) (received_messages s) v.

Definition incr_packets_received (t : stats_t) : stats_t :=
  Stats (packets_received t + 1) (packets_in_order t) (packets_out_of_order t)
        (acks_sent t) (acks_lost t).
Definition incr_packets_in_order (t : stats_t) : stats_t :=
  Stats (packets_received t) (packets_in_order t + 1) (packets_out_of_order t)
        (acks_sent t) (acks_lost t).
Definition incr_packets_out_of_order (t : stats_t) : stats_t :=
  Stats (packets_received t) (packets_in_order t) (packets_out_of_order t + 1)
        (acks_sent t) (acks_lost t).
Definition incr_acks_sent (t : stats_t) : stats_t :=
  Stats (packets_received t) (packets_in_order t) (packets_out_of_order t)
        (acks_sent t + 1) (acks_lost t).
Definition incr_acks_lost (t : stats_t) : stats_t :=
  Stats (packets_received t) (packets_in_order t) (packets_out_of_order t)
        (acks_sent t) (acks_lost t + 1).

(** [log_event] *)
Definition log_event (ev : string) (seq : option Z) (s : server) : server :=
  set_log_entries (log_entries s ++ [LogEntry ev seq]) s.

(** [simulate_ack_loss] *)
Definition simulate_ack_loss (a : attempt) (s : server) : bool * server :=
  if loss_trial (loss_probability s) a
  then (true, set_stats (incr_acks_lost (stats s)) s)
  else (false, s).

(** [send_ack] *)
Definition send_ack (ack_num : Z) (client_addr : address) (a : attempt)
    (s : server) : server :=
  let '(lost, s1) := simulate_ack_loss a s in
  if lost then log_event "ACK_LOSS" (Some ack_num) s1
  else if sendto_ok a then
    let s2 := set_sock (sock s1 ++ [(ack_num, client_addr)]) s1 in
    let s3 := set_stats (incr_acks_sent (stats s2)) s2 in
    let s4 := set_last_ack_sent ack_num s3 in
    log_event "ACK_SENT" (Some ack_num) s4
  else log_event "ERROR" (Some ack_num) s1.

(** The [try] block of [process_packet]: the exception it stops at, if any,
    and the state reached (what was written before a raise stays written). *)
Definition process_packet_try (packet_data : datagram) (client_addr : address)
    (a : attempt) (s : server) : option exn * server :=
  match packet_data with
  | NotUtf8 => (Some OtherException, s)
  | NotJson => (Some JSONDecodeError, s)
  | NotObject => (Some OtherException, s)
  | JsonObject None _ => (Some (KeyError "seq_num"), s)
  | JsonObject (Some _) None => (Some (KeyError "data"), s)
  | JsonObject (Some seq_num) (Some data) =>
      let s1 := set_stats (incr_packets_received (stats s)) s in
      let s2 := log_event "RECV" (whole seq_num) s1 in
      if py_eq seq_num (expected_seq_num s2) then
        (* seq_num equals the cursor: it is kept by that value *)
        let seq := expected_seq_num s2 in
        let s3 := set_stats (incr_packets_in_order (stats s2)) s2 in
        let s4 := set_received_messages
                    (received_messages s3 ++ [Message seq data]) s3 in
        let s5 := log_event "ACCEPT" (Some seq) s4 in
        let s6 := set_expected_seq_num (expected_seq_num s5 + 1) s5 in
        (None, send_ack seq client_addr a s6)
      else
        let s3 := set_stats (incr_packets_out_of_order (stats s2)) s2 in
        match py_lt seq_num (expected_seq_num s3) with
        | None => (Some OtherException, s3)      (* TypeError *)
        | Some before =>
            let s4 :=
              if before
              then log_event "DUPLICATE" (whole seq_num) s3
              else log_event "OUT_OF_ORDER" (whole seq_num) s3 in
            if 0 <=? last_ack_sent s4 then
              let s5 := send_ack (last_ack_sent s4) client_addr a s4 in
              (None, log_event "DUP_ACK" (Some (last_ack_sent s5)) s5)
            else (None, s4)
        end
  end.

(** [process_packet]: the [try] block under its three handlers.  The first
    component is the exception that reaches the caller. *)
Definition process_packet (packet_data : datagram) (client_addr : address)
    (a : attempt) (s : server) : option exn * server :=
  match process_packet_try packet_data client_addr a s with
  | (None, s') => (None, s')
  | (Some JSONDecodeError, s') => (None, log_event "ERROR" None s')
  | (Some (KeyError _), s') => (None, log_event "ERROR" None s')
  | (Some OtherException, s') => (None, log_event "ERROR" None s')
  end.

(** A record with both fields. *)
Definition record (seq_num data : json) : datagram :=
  JsonObject (Some seq_num) (Some data).

(** Malformed input: bytes that do not decode, a value that is no record, or
    a record without one of the two fields. *)
Definition malformed (d : datagram) : bool :=
  match d with
  | JsonObject (Some _) (Some _) => false
  | _ => true
  end.

(** A record with both fields whose [seq_num] is no number: [None], a
    string, a list or a dict. *)
Definition unnumbered (d : datagram) : bool :=
  match d with
  | JsonObject (Some seq_num) (Some _) =>
      match py_lt seq_num 0 with None => true | Some _ => false end
  | _ => false
  end.

(** The datagrams that [process_packet] ends on one of its handlers for. *)
Definition dropped (d : datagram) : bool := malformed d || unnumbered d.



(** ** Vocabulary of the statements about the receiver *)

(** The log entry one call of [send_ack] leaves. *)
Definition ack_outcome (p : Q) (a : attempt) : string :=
  if loss_trial p a then "ACK_LOSS"
  else if sendto_ok a then "ACK_SENT" else "ERROR".

(** A packet as the sender writes it. *)
Definition well_formed (seq_num : Z) (data : string) : datagram :=
  record (JInt seq_num) (JString data).

(** The receiver after [process_packet]. *)
Definition after (packet_data : datagram) (client_addr : address)
    (a : attempt) (s : server) : server :=
  (process_packet packet_data client_addr a s).2.

(** The runs of a receiver: one datagram after the other. *)
Inductive step : server → server → Prop :=
| step_packet s d addr a : step s (after d addr a s).

Definition reachable (p : Q) (s : server) : Prop := rtc step (init p) s.



(** A receiver that accepted two packets on a perfect channel. *)
Definition two_accepted : server :=
  after (well_formed 1 "b") ("localhost"%string, 5000) clean
    (after (well_formed 0 "a") ("localhost"%string, 5000) clean (init 0)).


(** From [s] to [s']: the log and the socket only grow at the end, the
    cursor and the counters do not go down. *)
Definition grows (s s' : server) : Prop :=
  loss_probability s' = loss_probability s ∧
  expected_seq_num s ≤ expected_seq_num s' ∧
  received_messages s `prefix_of` received_messages s' ∧
  sock s `prefix_of` sock s' ∧
  log_entries s `prefix_of` log_entries s' ∧
  packets_received (stats s) ≤ packets_received (stats s') ∧
  acks_sent (stats s) ≤ acks_sent (stats s').

(** ** Binding the socket: [_create_socket] *)

(** What [socket.bind] on a port does: it returns, raises the [OSError]
    for an address in use, or raises something else. *)
Inductive bind_result : Type :=
| BindOk
| AddressInUse
| BindError.

(** What [_create_socket] ends with: the port the server is bound to, or an
    exception. *)
Inductive socket_result : Type :=
| Bound (port : Z)
| Raised.

(** [range(12346, 12356)] *)
Definition fallback_ports : list Z := seqZ 12346 10.

(** The loop [for port in range(12346, 12356)]: the first port on which
    [bind] returns ([except: continue] skips every failure). *)
Fixpoint try_ports (bind : Z → bind_result) (ports : list Z) : option Z :=
  match ports with
  | [] => None
  | port :: rest =>
      match bind port with
      | BindOk => Some port
      | _ => try_ports bind rest
      end
  end.

(** [_create_socket] for the requested [port]; [bind] says what binding each
    port does while the call runs. *)
Definition create_socket (bind : Z → bind_result) (port : Z) : socket_result :=
  match bind port with
  | BindOk => Bound port
  | AddressInUse =>
      match try_ports bind fallback_ports with
      | Some port' => Bound port'
      | None => Raised
      end
  | BindError => Raised
  end.

End GBNServer.

(** ** Derived metrics *)
Module Metrics.

Local Open Scope Q_scope.

(** Python's [x / y] on two integers. *)
Definition truediv (x y : Z) : Q := inject_Z x / inject_Z y.

Record metrics : Type := MkMetrics {
  effective_loss_rate : Q;
  retransmission_rate : Q;
  protocol_efficiency : Q;
  throughput : Q;
  overhead_ratio : Q;
  timeout_count : Z;
  goodput : Q
}.

(** [ProfessionalGBNAnalyzer.calculate_advanced_metrics] (the entries of the
    result that only copy an argument are left out). *)
Definition calculate_advanced_metrics (stats : GBNClient.stats_t)
    (transmission_time : Q) (messages_count : Z) : metrics :=
  let packets_sent := GBNClient.packets_sent stats in
  let acks_received := GBNClient.acks_received stats in
  let retransmissions := GBNClient.retransmissions stats in
  let packets_lost := GBNClient.packets_lost stats in
  let total_transmissions := (packets_sent + packets_lost)%Z in
  {| effective_loss_rate :=
       if (0 <? total_transmissions)%Z
       then truediv packets_lost total_transmissions * 100 else 0;
     retransmission_rate :=
       if (0 <? messages_count)%Z
       then truediv retransmissions messages_count * 100 else 0;
     protocol_efficiency :=
       if (0 <? packets_sent)%Z
       then truediv acks_received packets_sent * 100 else 0;
     throughput :=
       if Qlt_bool 0 transmission_time
       then inject_Z messages_count / transmission_time else 0;
     overhead_ratio :=
       if (0 <? messages_count)%Z
       then truediv retransmissions messages_count else 0;
     timeout_count := retransmissions;
     goodput :=
       if Qlt_bool 0 transmission_time
       then inject_Z acks_received / transmission_time else 0 |}.

(** The two rates of [GBNClient.print_statistics]: loss rate and
    retransmission rate, computed only when a packet was sent. *)
Definition print_statistics_rates (stats : GBNClient.stats_t) : option (Q * Q) :=
  let packets_sent := GBNClient.packets_sent stats in
  let retransmissions := GBNClient.retransmissions stats in
  let packets_lost := GBNClient.packets_lost stats in
  if (0 <? packets_sent)%Z then
    Some (truediv packets_lost (packets_sent + packets_lost) * 100,
          truediv retransmissions packets_sent * 100)
  else None.

(** The definitions in the words of the specification: a plain quotient,
    [0] when the denominator is [0]. *)
Definition guarded_ratio (num den : Q) : Q :=
  if Qeq_bool den 0 then 0 else num / den.

Definition spec_loss_rate (lost sent : Z) : Q :=
  guarded_ratio (inject_Z lost) (inject_Z (sent + lost)).
Definition spec_retransmission_rate (retransmissions sent : Z) : Q :=
  guarded_ratio (inject_Z retransmissions) (inject_Z sent).
Definition spec_protocol_efficiency (acks_received packets_sent : Z) : Q :=
  guarded_ratio (inject_Z acks_received) (inject_Z packets_sent).
Definition spec_throughput (messages : Z) (elapsed_time : Q) : Q :=
  guarded_ratio (inject_Z messages) elapsed_time.
Definition spec_goodput (acks_received : Z) (elapsed_time : Q) : Q :=
  guarded_ratio (inject_Z acks_received) elapsed_time.

(** Counters of a lossy session: 4 packets sent, 1 retransmission, 3 ACKs
    received, 1 packet lost. *)
Definition sample_stats : GBNClient.stats_t := GBNClient.Stats 4 0 1 3 1.

End Metrics.

(** ** Naming the log file of a session *)
Module LogFile.

(** Python strings are modelled by [string] for ASCII file names, the only
    ones the code creates. *)

(** [str.startswith] *)
Definition startswith (p s : string) : bool := String.prefix p s.

(** [str.endswith] *)
Definition endswith (suffix s : string) : bool :=
  (String.length suffix <=? String.length s)%nat &&
  String.eqb
    (String.substring (String.length s - String.length suffix)
               (String.length suffix) s)
    suffix.

(** [filename[8:-4]] *)
Definition slice_8_m4 (filename : string) : string :=
  String.substring 8 (String.length filename - 12) filename.

Fixpoint all_digits (s : string) : bool :=
  match s with
  | EmptyString => true
  | String c s' => bool_decide (is_Some (Ascii.is_nat c)) && all_digits s'
  end.

(** [str.isdigit]: not empty, and decimal digits only. *)
Definition isdigit (s : string) : bool :=
  match s with
  | EmptyString => false
  | _ => all_digits s
  end.

Fixpoint int_go (acc : N) (s : string) : N :=
  match s with
  | EmptyString => acc
  | String c s' =>
      int_go (10 * acc + N.of_nat (default 0%nat (Ascii.is_nat c))) s'
  end.

(** [int] on a string of digits. *)
Definition int (s : string) : N := int_go 0 s.

(** The number one existing file contributes to [numbers], if any: the body
    of the loop of [_get_next_session_number]. *)
Definition file_number (filename : string) : option N :=
  if String.eqb filename "demo_run.log" then Some 0%N
  else if startswith "demo_run" filename && endswith ".log" filename then
    let number_str := slice_8_m4 filename in
    if isdigit number_str then Some (int number_str) else None
  else None.

(** [max(numbers)] on a non-empty list of naturals. *)
Definition max_number (numbers : list N) : N := foldr N.max 0%N numbers.

(** [_get_next_session_number]; [existing_files] are the base names of the
    files that [glob] found. *)
Definition get_next_session_number (existing_files : list string) : N :=
  match existing_files with
  | [] => 0%N
  | _ =>
      match omap file_number existing_files with
      | [] => 0%N
      | numbers => (max_number numbers + 1)%N
      end
  end.

(** The base name [_get_log_filename] chooses for a session number. *)
Definition log_basename (session_number : N) : string :=
  if decide (session_number = 0%N) then "demo_run.log"
  else "demo_run" +:+ pretty session_number +:+ ".log".

(** [_get_log_filename], inside the [logs] directory. *)
Definition get_log_filename (existing_files : list string) : string :=
  log_basename (get_next_session_number existing_files).

End LogFile.

(** ** Sender and receiver over a lossy channel *)
Module GBNSystem.

(** One session: the sender, the index of the next message [send_data] will
    take ([message_index]), and the receiver. *)
Record system : Type := System {
  sender : GBNClient.client;
  message_index : nat;
  receiver : GBNServer.server
}.

Definition sys_init (window_size : Z) (p q : Q) : system :=
  System (GBNClient.init window_size p) 0 (GBNServer.init q).

(** What the receiver decodes from a datagram of the sender that arrives
    intact: [json.loads] gives back the record [create_packet] encoded. *)
Definition on_wire (pkt : GBNClient.packet) : GBNServer.datagram :=
  GBNServer.well_formed (GBNClient.pkt_seq_num pkt) (GBNClient.pkt_data pkt).

(** The moves of a session of [send_data messages] against a receiver.  The
    channel may lose, duplicate, delay and reorder: any datagram ever handed
    to a socket may be delivered at any time, any number of times, or never.
    A datagram that arrives damaged or cut short (each end reads at most
    1024 bytes) is one that the code drops: the channel does not turn a
    datagram into another one that carries a number. *)
Inductive sys_step (messages : list string) : system → system → Prop :=
| sys_start y :
    sys_step messages y
      (System (GBNClient.session_start (sender y)) (message_index y) (receiver y))
| sys_add y data a :
    GBNClient.window_has_room (sender y) = true →
    messages !! message_index y = Some data →
    sys_step messages y
      (System (GBNClient.window_add data a (sender y)) (S (message_index y))
              (receiver y))
| sys_timeout y seq atts :
    sys_step messages y
      (System (GBNClient.timeout_handler seq atts (sender y)) (message_index y)
              (receiver y))
| sys_deliver y pkt addr a :
    pkt ∈ GBNClient.sock (sender y) →
    sys_step messages y
      (System (sender y) (message_index y)
              (GBNServer.after (on_wire pkt) addr a (receiver y)))
| sys_damaged y d addr a :
    GBNServer.dropped d = true →
    sys_step messages y
      (System (sender y) (message_index y)
              (GBNServer.after d addr a (receiver y)))
| sys_ack y k addr :
    (k, addr) ∈ GBNServer.sock (receiver y) →
    sys_step messages y
      (System (GBNClient.receive_acks_iter (GBNClient.AckDatagram k) (sender y))
              (message_index y) (receiver y))
| sys_no_ack y r :
    GBNClient.ack_number r = None →
    sys_step messages y
      (System (GBNClient.receive_acks_iter r (sender y)) (message_index y)
              (receiver y))
| sys_end y :
    (length messages ≤ message_index y)%nat →
    size (GBNClient.window (sender y)) = 0%nat →
    sys_step messages y
      (System (GBNClient.session_end (sender y)) (message_index y) (receiver y))
| sys_close y :
    sys_step messages y
      (System (GBNClient.close (sender y)) (message_index y) (receiver y)).

Definition sys_reachable (messages : list string) (window_size : Z) (p q : Q)
    (y : system) : Prop :=
  rtc (sys_step messages) (sys_init window_size p q) y.

(** The condition on which the main loop of [send_data] ends. *)
Definition transfer_complete (messages : list string) (y : system) : Prop :=
  (length messages ≤ message_index y)%nat ∧
  size (GBNClient.window (sender y)) = 0%nat.

(** The log of a receiver that accepted the first [n] of [messages]. *)
Definition accepted (messages : list string) (n : Z) : list GBNServer.message :=
  imap (λ i (d : string), GBNServer.Message (Z.of_nat i) d)
       (take (Z.to_nat n) messages).

(** What holds of every state of a session. *)
Definition sys_inv (messages : list string) (y : system) : Prop :=
  let c := sender y in
  let s := receiver y in
  GBNClient.next_seq_num c = Z.of_nat (message_index y) ∧
  (message_index y ≤ length messages)%nat ∧
  GBNClient.window_ok c ∧
  0 ≤ GBNClient.base c ∧
  (∀ i d, GBNClient.window c !! i = Some d →
          messages !! Z.to_nat i = Some d) ∧
  (∀ pkt, pkt ∈ GBNClient.sock c →
          0 ≤ GBNClient.pkt_seq_num pkt < GBNClient.next_seq_num c ∧
          messages !! Z.to_nat (GBNClient.pkt_seq_num pkt)
            = Some (GBNClient.pkt_data pkt)) ∧
  GBNClient.base c ≤ GBNServer.expected_seq_num s ∧
  GBNServer.expected_seq_num s ≤ GBNClient.next_seq_num c ∧
  GBNServer.received_messages s
    = accepted messages (GBNServer.expected_seq_num s) ∧
  GBNServer.last_ack_sent s < GBNServer.expected_seq_num s ∧
  (∀ k addr, (k, addr) ∈ GBNServer.sock s →
             0 ≤ k < GBNServer.expected_seq_num s).









(** A session of one message, after the message and its acknowledgment have
    been delivered on a perfect channel. *)
Definition one_delivered : system :=
  System
    (GBNClient.receive_acks_iter (GBNClient.AckDatagram 0)
       (GBNClient.window_add "a" clean
          (GBNClient.session_start (GBNClient.init 3 0))))
    1
    (GBNServer.after (on_wire (GBNClient.Packet 0 "a"))
       ("localhost"%string, 5000) clean (GBNServer.init 0)).

End GBNSystem.

(** * Properties of the sender *)
Section sender.
Import GBNClient.

(** Unfolds the record plumbing. *)
Ltac plumbing :=
  unfold log_event, set_base, set_next_seq_num, set_window, set_timers,
    set_stats, set_log_entries, set_running, set_sock,
    incr_packets_sent, incr_retransmissions, incr_acks_received,
    incr_packets_lost in *;
  simpl in *.

(** ** What [send_packet] touches *)

Lemma send_packet_frame seq data retx a c :
  let c' := send_packet seq data retx a c in
  window_size c' = window_size c ∧ base c' = base c ∧
  next_seq_num c' = next_seq_num c ∧ window c' = window c ∧
  timers c' = timers c ∧ timer_heap c' = timer_heap c ∧
  loss_probability c' = loss_probability c ∧ running c' = running c.
Proof.
  unfold send_packet, simulate_packet_loss.
  destruct (loss_trial _ a), (sendto_ok a), retx; plumbing; tauto.
Qed.


Lemma send_packet_sock seq data retx a c :
  sock (send_packet seq data retx a c) =
  sock c ++ (if delivered (loss_probability c) a then [Packet seq data] else []).
Proof.
  unfold send_packet, simulate_packet_loss, delivered.
  destruct (loss_trial _ a), (sendto_ok a), retx; plumbing;
    by rewrite ?app_nil_r.
Qed.

Lemma send_packet_stats seq data retx a c :
  let s := stats c in
  let s' := stats (send_packet seq data retx a c) in
  packets_sent s' =
    packets_sent s + (if delivered (loss_probability c) a then 1 else 0) ∧
  retransmissions s' =
    retransmissions s +
      (if delivered (loss_probability c) a && retx then 1 else 0) ∧
  packets_lost s' =
    packets_lost s + (if loss_trial (loss_probability c) a then 1 else 0) ∧
  acks_received s' = acks_received s ∧
  packets_received s' = packets_received s.
Proof.
  unfold send_packet, simulate_packet_loss, delivered.
  destruct (loss_trial _ a), (sendto_ok a), retx; plumbing; lia.
Qed.

(** ** What the timer operations touch *)

Lemma start_timer_frame seq c :
  let c' := start_timer seq c in
  window_size c' = window_size c ∧ base c' = base c ∧
  next_seq_num c' = next_seq_num c ∧ window c' = window c ∧
  loss_probability c' = loss_probability c ∧ running c' = running c ∧
  stats c' = stats c ∧ sock c' = sock c ∧
  log_entries c' = log_entries c ++ [LogEntry "TIMER_START" (Some seq)].
Proof. unfold start_timer; plumbing; tauto. Qed.

Lemma stop_timer_frame seq c :
  let c' := stop_timer seq c in
  window_size c' = window_size c ∧ base c' = base c ∧
  next_seq_num c' = next_seq_num c ∧ window c' = window c ∧
  loss_probability c' = loss_probability c ∧ running c' = running c ∧
  stats c' = stats c ∧ sock c' = sock c.
Proof. unfold stop_timer; destruct (timers c !! seq); plumbing; tauto. Qed.

Lemma stop_timer_timers seq c :
  timers (stop_timer seq c) = delete seq (timers c).
Proof.
  unfold stop_timer. destruct (timers c !! seq) eqn:E; plumbing; [done|].
  symmetry. by apply delete_id.
Qed.

(** Cancelling Timer objects. *)

Lemma cancel_cancels h heap t :
  heap !! h = Some t → cancel h heap !! h = Some (TimerObj (timer_arg t) true).
Proof.
  intros E. unfold cancel. rewrite list_lookup_alter_eq, E. reflexivity.
Qed.

Lemma cancel_keeps h h' heap :
  is_cancelled heap h' → is_cancelled (cancel h heap) h'.
Proof.
  unfold is_cancelled, cancel. intros E.
  destruct (decide (h = h')) as [->|N].
  - rewrite list_lookup_alter_eq. by destruct (heap !! h').
  - by rewrite list_lookup_alter_ne.
Qed.

Lemma length_cancel h heap : length (cancel h heap) = length heap.
Proof. apply length_alter. Qed.

Lemma stop_timer_cancels seq c h t :
  timers c !! seq = Some h → timer_heap c !! h = Some t →
  is_cancelled (timer_heap (stop_timer seq c)) h.
Proof.
  intros E1 E2. unfold stop_timer, is_cancelled. rewrite E1. plumbing.
  by rewrite (cancel_cancels _ _ _ E2).
Qed.

Lemma stop_timer_keeps seq c h :
  is_cancelled (timer_heap c) h →
  is_cancelled (timer_heap (stop_timer seq c)) h.
Proof.
  unfold stop_timer. destruct (timers c !! seq); plumbing; [|done].
  apply cancel_keeps.
Qed.

(** ** Processing an acknowledgment *)

Lemma ack_one_frame c seq :
  let c' := ack_one c seq in
  window_size c' = window_size c ∧ base c' = base c ∧
  next_seq_num c' = next_seq_num c ∧
  loss_probability c' = loss_probability c ∧ running c' = running c ∧
  stats c' = stats c ∧ sock c' = sock c.
Proof.
  unfold ack_one. pose proof (stop_timer_frame seq c) as F. simpl in F.
  destruct (window (stop_timer seq c) !! seq); plumbing; tauto.
Qed.

Lemma ack_one_window c seq :
  window (ack_one c seq) = delete seq (window c).
Proof.
  unfold ack_one. pose proof (stop_timer_frame seq c) as F. simpl in F.
  destruct F as (_ & _ & _ & W & _).
  destruct (window (stop_timer seq c) !! seq) eqn:E; plumbing.
  - by rewrite W.
  - rewrite W in *. symmetry. by apply delete_id.
Qed.

Lemma ack_one_timers c seq :
  timers (ack_one c seq) = delete seq (timers c).
Proof.
  unfold ack_one.
  destruct (window (stop_timer seq c) !! seq); plumbing;
    apply stop_timer_timers.
Qed.

Lemma ack_one_heap_length c seq :
  length (timer_heap (ack_one c seq)) = length (timer_heap c).
Proof.
  unfold ack_one, stop_timer.
  destruct (timers c !! seq); plumbing;
    repeat case_match; plumbing; auto using length_cancel.
Qed.

Lemma ack_one_keeps c seq h :
  is_cancelled (timer_heap c) h → is_cancelled (timer_heap (ack_one c seq)) h.
Proof.
  intros H. unfold ack_one.
  destruct (window (stop_timer seq c) !! seq); plumbing;
    by apply stop_timer_keeps.
Qed.

Lemma ack_one_cancels c seq h :
  timers c !! seq = Some h → (h < length (timer_heap c))%nat →
  is_cancelled (timer_heap (ack_one c seq)) h.
Proof.
  intros E L. destruct (lookup_lt_is_Some_2 _ _ L) as [t Ht].
  unfold ack_one.
  destruct (window (stop_timer seq c) !! seq); plumbing;
    by eapply stop_timer_cancels.
Qed.

(** The loop [for seq in range(...)] of [receive_acks], over any list. *)
Lemma ack_loop_frame l c :
  let c' := foldl ack_one c l in
  window_size c' = window_size c ∧ base c' = base c ∧
  next_seq_num c' = next_seq_num c ∧
  loss_probability c' = loss_probability c ∧ running c' = running c ∧
  stats c' = stats c ∧ sock c' = sock c.
Proof.
  revert c. induction l as [|a l IH]; intros c; simpl; [tauto|].
  specialize (IH (ack_one c a)). simpl in IH.
  pose proof (ack_one_frame c a) as F. simpl in F.
  destruct IH as (-> & -> & -> & -> & -> & -> & ->). tauto.
Qed.

Lemma ack_loop_window l c i :
  window (foldl ack_one c l) !! i =
  if decide (i ∈ l) then None else window c !! i.
Proof.
  revert c. induction l as [|a l IH]; intros c; simpl; [done|].
  rewrite IH, ack_one_window.
  destruct (decide (i ∈ l)) as [I|I].
  - rewrite decide_True; [done|apply elem_of_cons; auto].
  - destruct (decide (i = a)) as [->|N].
    + rewrite lookup_delete_eq, decide_True; [done|apply elem_of_cons; auto].
    + rewrite lookup_delete_ne, decide_False;
        [done|rewrite elem_of_cons; intros [?|?]; done|done].
Qed.

Lemma ack_loop_timers l c i :
  timers (foldl ack_one c l) !! i =
  if decide (i ∈ l) then None else timers c !! i.
Proof.
  revert c. induction l as [|a l IH]; intros c; simpl; [done|].
  rewrite IH, ack_one_timers.
  destruct (decide (i ∈ l)) as [I|I].
  - rewrite decide_True; [done|apply elem_of_cons; auto].
  - destruct (decide (i = a)) as [->|N].
    + rewrite lookup_delete_eq, decide_True; [done|apply elem_of_cons; auto].
    + rewrite lookup_delete_ne, decide_False;
        [done|rewrite elem_of_cons; intros [?|?]; done|done].
Qed.

Lemma ack_loop_keeps l c h :
  is_cancelled (timer_heap c) h →
  is_cancelled (timer_heap (foldl ack_one c l)) h.
Proof.
  revert c. induction l as [|a l IH]; intros c H; simpl; [done|].
  by apply IH, ack_one_keeps.
Qed.

Lemma ack_loop_cancels l c i h :
  i ∈ l → timers c !! i = Some h → (h < length (timer_heap c))%nat →
  is_cancelled (timer_heap (foldl ack_one c l)) h.
Proof.
  revert c. induction l as [|a l IH]; intros c I E L; simpl.
  - by apply elem_of_nil in I.
  - destruct (decide (i = a)) as [->|N].
    + by apply ack_loop_keeps, ack_one_cancels.
    + apply IH.
      * apply elem_of_cons in I as [?|?]; done.
      * by rewrite ack_one_timers, lookup_delete_ne.
      * by rewrite ack_one_heap_length.
Qed.

(** [on_ack] by cases. *)
Lemma on_ack_fresh c k :
  base c ≤ k →
  on_ack k c =
  log_event "WINDOW_UPDATE" None
    (set_base (k + 1)
       (foldl ack_one
          (log_event "ACK_RECV" (Some k)
             (set_stats (incr_acks_received (stats c)) c))
          (seqZ (base c) (k + 1 - base c)))).
Proof.
  intros H. unfold on_ack.
  change (base (log_event _ _ (set_stats _ c))) with (base c).
  by rewrite (proj2 (Z.leb_le _ _) H).
Qed.

Lemma on_ack_stale c k :
  k < base c →
  on_ack k c =
  log_event "ACK_RECV" (Some k) (set_stats (incr_acks_received (stats c)) c).
Proof.
  intros H. unfold on_ack.
  change (base (log_event _ _ (set_stats _ c))) with (base c).
  by rewrite (proj2 (Z.leb_gt _ _) H).
Qed.

Lemma on_ack_frame c k :
  let c' := on_ack k c in
  window_size c' = window_size c ∧ next_seq_num c' = next_seq_num c ∧
  loss_probability c' = loss_probability c ∧ running c' = running c ∧
  stats c' = incr_acks_received (stats c) ∧ sock c' = sock c.
Proof.
  simpl. destruct (Z_lt_le_dec k (base c)) as [H|H].
  - rewrite on_ack_stale by done. plumbing. tauto.
  - rewrite on_ack_fresh by done.
    match goal with |- context [foldl ack_one ?c0 ?l] =>
      pose proof (ack_loop_frame l c0) as F end.
    plumbing. tauto.
Qed.

Lemma on_ack_base c k :
  base (on_ack k c) = if base c <=? k then k + 1 else base c.
Proof.
  destruct (Z_lt_le_dec k (base c)) as [H|H].
  - rewrite on_ack_stale, (proj2 (Z.leb_gt _ _) H) by done. reflexivity.
  - rewrite on_ack_fresh, (proj2 (Z.leb_le _ _) H) by done. reflexivity.
Qed.

Lemma on_ack_window c k i :
  window (on_ack k c) !! i =
  if decide (base c ≤ i ≤ k) then None else window c !! i.
Proof.
  destruct (Z_lt_le_dec k (base c)) as [H|H].
  - rewrite on_ack_stale by done. rewrite decide_False by lia. reflexivity.
  - rewrite on_ack_fresh by done.
    change (window (log_event ?e ?s (set_base ?b ?x))) with (window x).
    rewrite ack_loop_window.
    destruct (decide (base c ≤ i ≤ k)) as [I|I].
    + rewrite decide_True; [done|]. apply elem_of_seqZ. lia.
    + rewrite decide_False; [done|]. rewrite elem_of_seqZ. lia.
Qed.

Lemma on_ack_timers c k i :
  timers (on_ack k c) !! i =
  if decide (base c ≤ i ≤ k) then None else timers c !! i.
Proof.
  destruct (Z_lt_le_dec k (base c)) as [H|H].
  - rewrite on_ack_stale by done. rewrite decide_False by lia. reflexivity.
  - rewrite on_ack_fresh by done.
    change (timers (log_event ?e ?s (set_base ?b ?x))) with (timers x).
    rewrite ack_loop_timers.
    destruct (decide (base c ≤ i ≤ k)) as [I|I].
    + rewrite decide_True; [done|]. apply elem_of_seqZ. lia.
    + rewrite decide_False; [done|]. rewrite elem_of_seqZ. lia.
Qed.

Lemma on_ack_cancels c k i h :
  base c ≤ i ≤ k → timers c !! i = Some h →
  (h < length (timer_heap c))%nat →
  is_cancelled (timer_heap (on_ack k c)) h.
Proof.
  intros I E L. rewrite on_ack_fresh by lia.
  change (timer_heap (log_event ?e ?s (set_base ?b ?x))) with (timer_heap x).
  apply ack_loop_cancels with (i := i); [|done|done].
  apply elem_of_seqZ. lia.
Qed.

Lemma on_ack_stale_same c k :
  k < base c →
  same_protocol_state c (on_ack k c) ∧
  stats (on_ack k c) = incr_acks_received (stats c) ∧
  log_entries (on_ack k c) = log_entries c ++ [LogEntry "ACK_RECV" (Some k)].
Proof.
  intros H. rewrite on_ack_stale by done.
  unfold same_protocol_state. plumbing. tauto.
Qed.

(** An acknowledgment whose number is an [int] (or a [bool]) is processed by
    its value; one whose number is anything else is counted and logged, and
    nothing else changes. *)
Lemma on_ack_value_cases v c :
  (∃ k, as_int v = Some k ∧ on_ack_value v c = on_ack k c) ∨
  (as_int v = None ∧
   ∃ evs, on_ack_value v c =
          set_log_entries (log_entries c ++ evs)
            (set_stats (incr_acks_received (stats c)) c)).
Proof.
  unfold on_ack_value. destruct (as_int v) as [k|] eqn:E; [left; eauto|].
  right. split; [done|]. cbv zeta.
  change (running (log_event ?e ?q (set_stats ?t c))) with (running c).
  destruct (py_ge v _) as [[|]|], (running c);
    try (exists [LogEntry "ACK_RECV" (whole v)]; reflexivity);
    exists [LogEntry "ACK_RECV" (whole v); LogEntry "ERROR" None];
    unfold log_event, set_log_entries; simpl; by rewrite <- app_assoc.
Qed.

(** Claim C2.  Processing a received ACK [k] with [k >= base] removes the
    window entry and the timer of every sequence number in [[base, k]],
    cancelling the Timer object that was armed for it, leaves the entries
    outside that range alone, and sets [base = k + 1].  An ACK with
    [k < base] changes nothing of the window, the timers or [base]: only
    [acks_received] grows by one (and the event is logged).  In every case
    [acks_received] is one more than before and no other counter changes, so
    processing the same ACK a second time is such a no-op: it adds one more
    to [acks_received] and nothing else. *)
Theorem ack_processing (c : client) (k : Z) :
  let c' := on_ack k c in
  (base c ≤ k →
     base c' = k + 1 ∧
     (∀ i, base c ≤ i ≤ k →
        window c' !! i = None ∧ timers c' !! i = None ∧
        ∀ h, timers c !! i = Some h → (h < length (timer_heap c))%nat →
             is_cancelled (timer_heap c') h) ∧
     (∀ i, ¬ base c ≤ i ≤ k →
        window c' !! i = window c !! i ∧ timers c' !! i = timers c !! i)) ∧
  (k < base c →
     same_protocol_state c c' ∧
     log_entries c' = log_entries c ++ [LogEntry "ACK_RECV" (Some k)]) ∧
  (acks_received (stats c') = acks_received (stats c) + 1 ∧
   packets_sent (stats c') = packets_sent (stats c) ∧
   packets_received (stats c') = packets_received (stats c) ∧
   retransmissions (stats c') = retransmissions (stats c) ∧
   packets_lost (stats c') = packets_lost (stats c) ∧
   next_seq_num c' = next_seq_num c ∧ sock c' = sock c) ∧
  (same_protocol_state c' (on_ack k c') ∧
   acks_received (stats (on_ack k c')) = acks_received (stats c) + 2 ∧
   packets_sent (stats (on_ack k c')) = packets_sent (stats c) ∧
   packets_received (stats (on_ack k c')) = packets_received (stats c) ∧
   retransmissions (stats (on_ack k c')) = retransmissions (stats c) ∧
   packets_lost (stats (on_ack k c')) = packets_lost (stats c) ∧
   log_entries (on_ack k c') =
     log_entries c' ++ [LogEntry "ACK_RECV" (Some k)]).
Proof.
  intros c'. subst c'. split; [|split; [|split]].
  - intros H. split; [|split].
    + rewrite on_ack_base. by rewrite (proj2 (Z.leb_le _ _) H).
    + intros i I. rewrite on_ack_window, on_ack_timers, !decide_True by done.
      split; [done|split; [done|]].
      intros h E L. by eapply on_ack_cancels.
    + intros i I. by rewrite on_ack_window, on_ack_timers, !decide_False.
  - intros H. destruct (on_ack_stale_same c k H) as (S & _ & L). done.
  - pose proof (on_ack_frame c k) as (_ & N & _ & _ & S & K).
    cbv zeta in N, S, K. rewrite S. simpl. tauto.
  - assert (H : k < base (on_ack k c))
      by (rewrite on_ack_base; case_match; lia).
    destruct (on_ack_stale_same (on_ack k c) k H) as (P & S & L).
    pose proof (on_ack_frame c k) as (_ & _ & _ & _ & S0 & _).
    cbv zeta in S0. rewrite S, S0. simpl.
    split; [exact P|]. split; [lia|]. tauto.
Qed.

Lemma ack_processing_witness :
  (base two_in_flight ≤ 0 ∧ base (on_ack 0 two_in_flight) = 1 ∧
   window (on_ack 0 two_in_flight) !! 0 = None ∧
   is_cancelled (timer_heap (on_ack 0 two_in_flight)) 0 ∧
   acks_received (stats (on_ack 0 two_in_flight)) = 1 ∧
   acks_received (stats (on_ack 0 (on_ack 0 two_in_flight))) = 2) ∧
  (-1 < base two_in_flight ∧
   same_protocol_state two_in_flight (on_ack (-1) two_in_flight)).
Proof.
  assert (B : base two_in_flight = 0) by reflexivity.
  split.
  - destruct (ack_processing two_in_flight 0) as (F & _ & G & I).
    destruct F as (F1 & F2 & _); [rewrite B; lia|].
    destruct (F2 0) as (W & _ & T); [rewrite B; lia|].
    split; [rewrite B; lia|]. split; [exact F1|]. split; [exact W|].
    split; [apply T; vm_compute; [reflexivity|lia]|].
    split; [exact (proj1 G)|exact (proj1 (proj2 I))].
  - destruct (ack_processing two_in_flight (-1)) as (_ & S & _).
    split; [rewrite B; lia|]. apply S. rewrite B. lia.
Defined.

(** Claim C9.  The ACK path puts no upper bound on the acknowledged number:
    whenever [k >= base] the new base is [k + 1] and [next_seq_num] stays, so
    an ACK for a sequence number that was never assigned ([k >= next_seq_num])
    leaves [base] strictly above [next_seq_num]; from a state with
    [base <= next_seq_num] the relation survives an ACK exactly when
    [k < next_seq_num]. *)
Theorem ack_number_unbounded (c : client) (k : Z) :
  let c' := on_ack k c in
  (base c ≤ k → base c' = k + 1 ∧ next_seq_num c' = next_seq_num c) ∧
  (base c ≤ k → next_seq_num c ≤ k → next_seq_num c' < base c') ∧
  (base c ≤ next_seq_num c →
     (base c' ≤ next_seq_num c' ↔ k < next_seq_num c)).
Proof.
  intros c'. subst c'.
  pose proof (on_ack_frame c k) as (_ & N & _). simpl in N.
  rewrite N, on_ack_base.
  destruct (Z.leb_spec (base c) k); repeat split; intros; lia.
Qed.

Lemma ack_number_unbounded_witness :
  (base two_in_flight ≤ 7 ∧ next_seq_num two_in_flight ≤ 7 ∧
   next_seq_num (on_ack 7 two_in_flight) = 2 ∧
   base (on_ack 7 two_in_flight) = 8) ∧
  (base two_in_flight ≤ next_seq_num two_in_flight ∧
   ¬ base (on_ack 7 two_in_flight) ≤ next_seq_num (on_ack 7 two_in_flight)).
Proof.
  assert (B : base two_in_flight = 0) by reflexivity.
  assert (N : next_seq_num two_in_flight = 2) by reflexivity.
  destruct (ack_number_unbounded two_in_flight 7) as (F1 & F2 & F3).
  destruct F1 as [F1a F1b]; [rewrite B; lia|].
  split.
  - split; [rewrite B; lia|]. split; [rewrite N; lia|].
    split; [|exact F1a]. rewrite F1b. exact N.
  - split; [rewrite B, N; lia|].
    intros H. apply F3 in H; rewrite ?B, ?N in *; lia.
Defined.

(** ** The counters along a run *)

Lemma counters_ok_same c c' :
  packets_sent (stats c') = packets_sent (stats c) →
  retransmissions (stats c') = retransmissions (stats c) →
  sock c' = sock c →
  counters_ok c → counters_ok c'.
Proof. unfold counters_ok. intros -> -> ->. done. Qed.

Lemma send_packet_counters seq data retx a c :
  counters_ok c → counters_ok (send_packet seq data retx a c).
Proof.
  unfold counters_ok.
  pose proof (send_packet_stats seq data retx a c) as (P & R & _).
  simpl in P, R. rewrite P, R, send_packet_sock.
  destruct (delivered _ a), retx; simpl;
    rewrite ?app_nil_r, ?length_app; simpl; lia.
Qed.

Lemma retransmit_one_counters atts c i :
  counters_ok c → counters_ok (retransmit_one atts c i).
Proof.
  intros H. unfold retransmit_one. destruct (window c !! i); [|done].
  match goal with |- counters_ok (start_timer ?i ?x) =>
    pose proof (start_timer_frame i x) as F;
    apply (counters_ok_same x) end;
  simpl in F; destruct F as (_ & _ & _ & _ & _ & _ & S & K & _);
  rewrite ?S; try done.
  by apply send_packet_counters.
Qed.

Lemma retransmit_loop_counters atts l c :
  counters_ok c → counters_ok (foldl (retransmit_one atts) c l).
Proof.
  revert c. induction l as [|a l IH]; intros c H; simpl; [done|].
  by apply IH, retransmit_one_counters.
Qed.

Lemma timeout_handler_counters seq atts c :
  counters_ok c → counters_ok (timeout_handler seq atts c).
Proof.
  intros H. unfold timeout_handler. destruct (running c); simpl; [|done].
  by apply retransmit_loop_counters.
Qed.

Lemma on_ack_counters k c : counters_ok c → counters_ok (on_ack k c).
Proof.
  pose proof (on_ack_frame c k) as (_ & _ & _ & _ & S & K). simpl in S, K.
  apply counters_ok_same; rewrite ?S; done.
Qed.

Lemma window_add_counters data a c :
  counters_ok c → counters_ok (window_add data a c).
Proof.
  intros H. unfold window_add.
  match goal with
  | |- counters_ok (set_next_seq_num _ (log_event _ _ (start_timer ?i ?x))) =>
      pose proof (start_timer_frame i x) as F;
      assert (H' : counters_ok x) by (by apply send_packet_counters);
      apply (counters_ok_same x)
  end;
  simpl in F; destruct F as (_ & _ & _ & _ & _ & _ & S & K & _);
  plumbing; rewrite ?S; done.
Qed.

Lemma step_counters c c' : step c c' → counters_ok c → counters_ok c'.
Proof.
  destruct 1 as [c|c data a _|c r|c seq atts|c _|c]; intros H.
  - exact H.
  - by apply window_add_counters.
  - unfold receive_acks_iter. destruct (running c), r as [|k| |v]; try done.
    + by apply on_ack_counters.
    + destruct (on_ack_value_cases v c) as [(k & _ & ->)|(_ & evs & ->)];
        [by apply on_ack_counters|done].
  - by apply timeout_handler_counters.
  - exact H.
  - exact H.
Qed.

Lemma reachable_counters ws p c : reachable ws p c → counters_ok c.
Proof.
  unfold reachable. intros R.
  apply (rtc_ind_r (R := step) counters_ok (init ws p)); [| |exact R].
  - unfold counters_ok. simpl. lia.
  - intros y z _ S H. by eapply step_counters.
Qed.

Lemma two_in_flight_reachable : reachable 3 0 two_in_flight.
Proof.
  unfold reachable, two_in_flight.
  eapply rtc_l; [apply step_start|].
  eapply rtc_l; [apply (step_add _ "a" clean); reflexivity|].
  eapply rtc_l; [apply (step_add _ "b" clean); reflexivity|].
  apply rtc_refl.
Defined.

(** ** The window along a run *)

Lemma retransmit_one_frame atts c i :
  let c' := retransmit_one atts c i in
  window_size c' = window_size c ∧ base c' = base c ∧
  next_seq_num c' = next_seq_num c ∧ window c' = window c ∧
  loss_probability c' = loss_probability c ∧ running c' = running c.
Proof.
  unfold retransmit_one. destruct (window c !! i) as [d|]; [|simpl; tauto].
  pose proof (send_packet_frame i d true (atts i) c) as F.
  pose proof (start_timer_frame i (send_packet i d true (atts i) c)) as G.
  cbv zeta in *.
  destruct G as (-> & -> & -> & -> & -> & -> & _). tauto.
Qed.

Lemma retransmit_loop_frame atts l c :
  let c' := foldl (retransmit_one atts) c l in
  window_size c' = window_size c ∧ base c' = base c ∧
  next_seq_num c' = next_seq_num c ∧ window c' = window c ∧
  loss_probability c' = loss_probability c ∧ running c' = running c.
Proof.
  revert c. induction l as [|a l IH]; intros c; simpl; [tauto|].
  specialize (IH (retransmit_one atts c a)). cbv zeta in IH.
  pose proof (retransmit_one_frame atts c a) as F. cbv zeta in F.
  destruct IH as (-> & -> & -> & -> & -> & ->). tauto.
Qed.

Lemma timeout_handler_frame seq atts c :
  let c' := timeout_handler seq atts c in
  window_size c' = window_size c ∧ base c' = base c ∧
  next_seq_num c' = next_seq_num c ∧ window c' = window c ∧
  loss_probability c' = loss_probability c ∧ running c' = running c.
Proof.
  unfold timeout_handler. destruct (running c) eqn:E; cbv zeta; simpl negb;
    cbv iota; [|tauto].
  match goal with |- context [foldl _ ?c0 ?l] =>
    pose proof (retransmit_loop_frame atts l c0) as F end.
  cbv zeta in F. destruct F as (-> & -> & -> & -> & -> & ->).
  plumbing. tauto.
Qed.

Lemma window_add_frame data a c :
  let c' := window_add data a c in
  window_size c' = window_size c ∧ base c' = base c ∧
  next_seq_num c' = next_seq_num c + 1 ∧
  window c' = <[next_seq_num c := data]> (window c) ∧
  loss_probability c' = loss_probability c ∧ running c' = running c.
Proof.
  unfold window_add.
  match goal with
  | |- context [start_timer ?i (send_packet ?i ?d ?r ?a ?x)] =>
      pose proof (send_packet_frame i d r a x) as F;
      pose proof (start_timer_frame i (send_packet i d r a x)) as G
  end.
  cbv zeta in *.
  change (window_size (set_next_seq_num ?v (log_event ?e ?s ?x)))
    with (window_size x).
  change (base (set_next_seq_num ?v (log_event ?e ?s ?x))) with (base x).
  change (next_seq_num (set_next_seq_num ?v (log_event ?e ?s ?x))) with v.
  change (window (set_next_seq_num ?v (log_event ?e ?s ?x))) with (window x).
  change (loss_probability (set_next_seq_num ?v (log_event ?e ?s ?x)))
    with (loss_probability x).
  change (running (set_next_seq_num ?v (log_event ?e ?s ?x))) with (running x).
  change (next_seq_num (log_event ?e ?s ?x)) with (next_seq_num x).
  destruct G as (-> & -> & -> & -> & -> & -> & _).
  destruct F as (-> & -> & -> & -> & _ & _ & -> & ->). tauto.
Qed.

Lemma ack_loop_size l c :
  NoDup l → (∀ i, i ∈ l → is_Some (window c !! i)) →
  (size (window (foldl ack_one c l)) + length l)%nat = size (window c).
Proof.
  revert c. induction l as [|a l IH]; intros c ND I; simpl; [lia|].
  apply NoDup_cons in ND as [Na ND].
  assert (Ia : is_Some (window c !! a)) by (apply I, elem_of_cons; auto).
  assert (size (window c) ≠ 0%nat) as NZ.
  { intros Z%map_size_empty_inv. destruct Ia as [x Hx].
    by rewrite Z, lookup_empty in Hx. }
  pose proof (map_size_delete_Some a (window c) Ia) as D.
  rewrite <- ack_one_window in D.
  rewrite <- (IH (ack_one c a) ND) in D; [lia|].
  intros i Hi. rewrite ack_one_window, lookup_delete_ne.
  - apply I, elem_of_cons; auto.
  - intros ->. done.
Qed.

Lemma window_add_ok data a c :
  window_has_room c = true → window_ok c → window_ok (window_add data a c).
Proof.
  unfold window_has_room, window_ok.
  intros R%Z.ltb_lt (B & W & S & K).
  pose proof (window_add_frame data a c) as (-> & -> & -> & -> & _).
  assert (N : window c !! next_seq_num c = None).
  { destruct (window c !! next_seq_num c) eqn:E; [|done].
    assert (is_Some (window c !! next_seq_num c)) as I%K by (by rewrite E).
    lia. }
  split; [lia|]. split; [lia|]. split.
  - rewrite map_size_insert_None by done. lia.
  - intros i. destruct (decide (i = next_seq_num c)) as [->|D].
    + rewrite lookup_insert_eq. split; [lia|by eauto].
    + rewrite lookup_insert_ne by done. rewrite K. lia.
Qed.

Lemma on_ack_ok k c :
  k < next_seq_num c → window_ok c → window_ok (on_ack k c).
Proof.
  unfold window_ok. intros A (B & W & S & K).
  pose proof (on_ack_frame c k) as (-> & -> & _).
  rewrite on_ack_base.
  destruct (Z.leb_spec (base c) k) as [L|L].
  - split; [lia|]. split; [lia|]. split.
    + rewrite on_ack_fresh by done.
      change (window (log_event ?e ?s (set_base ?b ?x))) with (window x).
      match goal with |- context [foldl ack_one ?c0 ?l] =>
        pose proof (ack_loop_size l c0 (NoDup_seqZ _ _)) as Z end.
      rewrite length_seqZ in Z.
      change (window (log_event ?e ?s (set_stats ?b ?x))) with (window x) in Z.
      rewrite <- Z in S; [lia|].
      intros i I%elem_of_seqZ. apply K. lia.
    + intros i. rewrite on_ack_window.
      destruct (decide (base c ≤ i ≤ k)).
      * split; [intros [? ?]; done|lia].
      * rewrite K. lia.
  - assert (window (on_ack k c) = window c) as ->.
    { by rewrite on_ack_stale. }
    tauto.
Qed.

Lemma step_assigned_ok c c' :
  step_assigned c c' →
  window_ok c → window_ok c' ∧ window_size c' = window_size c.
Proof.
  destruct 1 as [c|c data a R|c r A|c seq atts|c _|c]; intros H.
  - split; [exact H|reflexivity].
  - split; [by apply window_add_ok|apply window_add_frame].
  - unfold receive_acks_iter. destruct (running c), r as [|k| |v]; try done.
    + split; [by apply on_ack_ok|apply on_ack_frame].
    + unfold ack_assigned in A. cbn [ack_number] in A.
      destruct (on_ack_value_cases v c) as [(k & E & ->)|(_ & evs & ->)];
        [|done].
      rewrite E in A. split; [by apply on_ack_ok|apply on_ack_frame].
  - pose proof (timeout_handler_frame seq atts c) as (E1 & E2 & E3 & E4 & _).
    unfold window_ok. rewrite E1, E2, E3, E4. done.
  - split; [exact H|reflexivity].
  - split; [exact H|reflexivity].
Qed.

Lemma reachable_assigned_ok ws p c :
  0 ≤ ws → reachable_assigned ws p c →
  window_ok c ∧ window_size c = ws.
Proof.
  unfold reachable_assigned. intros P R.
  apply (rtc_ind_r (R := step_assigned)
           (λ c, window_ok c ∧ window_size c = ws) (init ws p)); [| |exact R].
  - unfold window_ok. simpl. split; [|done].
    split; [lia|]. split; [lia|]. split; [done|].
    intros i. rewrite lookup_empty. split; [intros [? ?]; done|lia].
  - intros y z _ S (H & E).
    destruct (step_assigned_ok _ _ S H) as (H' & E'). split; [done|congruence].
Qed.

Lemma two_in_flight_reachable_assigned : reachable_assigned 3 0 two_in_flight.
Proof.
  unfold reachable_assigned, two_in_flight.
  eapply rtc_l; [apply stepa_start|].
  eapply rtc_l; [apply (stepa_add _ "a" clean); reflexivity|].
  eapply rtc_l; [apply (stepa_add _ "b" clean); reflexivity|].
  apply rtc_refl.
Defined.

(** Claim C4, as far as it holds.  From a sender built with a non-negative
    window size, along any interleaving of session starts and ends,
    window-filling steps, timer firings and ACK-processing steps whose ACK
    names a sequence number that was assigned ([ack_num < next_seq_num]):
    [0 <= next_seq_num - base <= window_size], and the window map has
    exactly [next_seq_num - base] entries. *)
Theorem window_invariant (ws : Z) (p : Q) (c : client) :
  0 ≤ ws →
  reachable_assigned ws p c →
  0 ≤ next_seq_num c - base c ≤ window_size c ∧
  Z.of_nat (size (window c)) = next_seq_num c - base c.
Proof.
  intros P R.
  destruct (reachable_assigned_ok ws p c P R) as ((B & W & S & _) & _).
  lia.
Qed.

Lemma window_invariant_witness :
  0 ≤ next_seq_num two_in_flight - base two_in_flight
    ≤ window_size two_in_flight ∧
  Z.of_nat (size (window two_in_flight)) =
    next_seq_num two_in_flight - base two_in_flight.
Proof.
  apply (window_invariant 3 0%Q two_in_flight); [lia|].
  exact two_in_flight_reachable_assigned.
Defined.

(** Claim C4 as stated fails: steps of [send_data] and of the ACK path reach
    a state with [next_seq_num - base < 0]. *)
Lemma window_invariant_counterexample :
  reachable 3 0 early_ack ∧
  ¬ (0 ≤ next_seq_num early_ack - base early_ack ≤ window_size early_ack).
Proof.
  split.
  - unfold reachable, early_ack.
    eapply rtc_l; [apply step_start|].
    eapply rtc_l; [apply (step_ack _ (AckDatagram 5))|].
    apply rtc_refl.
  - assert (next_seq_num early_ack - base early_ack = -6) as -> by reflexivity.
    lia.
Qed.

(** ** Timer firing: the Go-Back-N loop *)

Lemma start_timer_timers i c :
  timers (start_timer i c) = <[i := length (timer_heap c)]> (timers c).
Proof.
  unfold start_timer. destruct (timers c !! i); plumbing;
    by rewrite ?length_cancel.
Qed.

Lemma start_timer_heap i c :
  timer_heap (start_timer i c) =
  match timers c !! i with
  | Some h => cancel h (timer_heap c)
  | None => timer_heap c
  end ++ [TimerObj i false].
Proof. reflexivity. Qed.

Lemma start_timer_heap_length i c :
  length (timer_heap (start_timer i c)) = S (length (timer_heap c)).
Proof.
  rewrite start_timer_heap, length_app. simpl.
  destruct (timers c !! i); rewrite ?length_cancel; lia.
Qed.





(** One turn of the loop on a sequence number that is in the window. *)
Lemma retransmit_one_present atts c i d :
  window c !! i = Some d →
  retransmit_one atts c i = start_timer i (send_packet i d true (atts i) c).
Proof. intros E. unfold retransmit_one. by rewrite E. Qed.

Lemma retransmit_one_absent atts c i :
  window c !! i = None → retransmit_one atts c i = c.
Proof. intros E. unfold retransmit_one. by rewrite E. Qed.

Lemma retransmit_one_timers atts c i :
  timers (retransmit_one atts c i) =
  if decide (is_Some (window c !! i))
  then <[i := length (timer_heap c)]> (timers c) else timers c.
Proof.
  destruct (window c !! i) as [d|] eqn:E.
  - rewrite decide_True by eauto.
    rewrite (retransmit_one_present _ _ _ _ E), start_timer_timers.
    pose proof (send_packet_frame i d true (atts i) c) as F. cbv zeta in F.
    destruct F as (_ & _ & _ & _ & -> & -> & _). done.
  - rewrite decide_False by (intros [? ?]; done).
    by rewrite retransmit_one_absent.
Qed.

Lemma retransmit_one_heap_length atts c i :
  (length (timer_heap c) ≤ length (timer_heap (retransmit_one atts c i)))%nat.
Proof.
  destruct (window c !! i) as [d|] eqn:E.
  - rewrite (retransmit_one_present _ _ _ _ E), start_timer_heap_length.
    pose proof (send_packet_frame i d true (atts i) c) as F. cbv zeta in F.
    destruct F as (_ & _ & _ & _ & _ & -> & _). lia.
  - by rewrite retransmit_one_absent.
Qed.

Lemma retransmit_one_wf atts c i :
  timers_wf c → timers_wf (retransmit_one atts c i).
Proof.
  intros W. destruct (window c !! i) as [d|] eqn:E.
  - pose proof (retransmit_one_timers atts c i) as T.
    rewrite decide_True in T by eauto.
    pose proof (send_packet_frame i d true (atts i) c) as F. cbv zeta in F.
    destruct F as (_ & _ & _ & _ & _ & Fh & _).
    intros j h. rewrite T.
    rewrite (retransmit_one_present _ _ _ _ E), start_timer_heap_length, Fh.
    destruct (decide (i = j)) as [->|N].
    + rewrite lookup_insert_eq. intros [= <-]. lia.
    + rewrite lookup_insert_ne by done. intros H%W. lia.
  - by rewrite retransmit_one_absent.
Qed.





(** The whole loop, over a duplicate-free list of sequence numbers. *)
Lemma retransmit_loop_wf atts l c :
  timers_wf c →
  timers_wf (foldl (retransmit_one atts) c l) ∧
  (length (timer_heap c) ≤
   length (timer_heap (foldl (retransmit_one atts) c l)))%nat.
Proof.
  revert c. induction l as [|a l IH]; intros c W; simpl; [auto|].
  destruct (IH _ (retransmit_one_wf atts c a W)) as [W' L'].
  split; [done|]. pose proof (retransmit_one_heap_length atts c a). lia.
Qed.







Lemma retransmit_one_sock atts c i :
  sock (retransmit_one atts c i) =
  sock c ++
  (if decide (is_Some (window c !! i))
   then option_list (retx_packet (loss_probability c) (window c) atts i)
   else []).
Proof.
  destruct (window c !! i) as [d|] eqn:E.
  - rewrite decide_True by eauto.
    rewrite (retransmit_one_present _ _ _ _ E).
    pose proof (start_timer_frame i (send_packet i d true (atts i) c)) as F.
    cbv zeta in F. destruct F as (_ & _ & _ & _ & _ & _ & _ & -> & _).
    rewrite send_packet_sock. unfold retx_packet. rewrite E.
    by destruct (delivered _ _).
  - rewrite decide_False by (intros [? ?]; done).
    by rewrite retransmit_one_absent, app_nil_r.
Qed.


Lemma retransmit_loop_sock atts l c :
  sock (foldl (retransmit_one atts) c l) =
  sock c ++
  omap (retx_packet (loss_probability c) (window c) atts)
       (filter (λ i, is_Some (window c !! i)) l).
Proof.
  revert c. induction l as [|a l IH]; intros c; simpl.
  - by rewrite app_nil_r.
  - rewrite IH, retransmit_one_sock.
    pose proof (retransmit_one_frame atts c a) as F. cbv zeta in F.
    destruct F as (_ & _ & _ & -> & -> & _).
    rewrite filter_cons. case_decide.
    + rewrite <- app_assoc. f_equal. simpl.
      by destruct (retx_packet _ _ _ a).
    + by rewrite app_nil_r.
Qed.

(** [timeout_handler] on a running sender. *)
Lemma timeout_handler_running seq atts c :
  running c = true →
  timeout_handler seq atts c =
  foldl (retransmit_one atts) (log_event "TIMEOUT" (Some seq) c)
        (seqZ (base c) (next_seq_num c - base c)).
Proof. intros R. unfold timeout_handler. by rewrite R. Qed.

Lemma timeout_handler_stopped seq atts c :
  running c = false → timeout_handler seq atts c = c.
Proof. intros R. unfold timeout_handler. by rewrite R. Qed.


(** ** Handles never dangle along a run *)

Lemma start_timer_wf i c : timers_wf c → timers_wf (start_timer i c).
Proof.
  intros W j h. rewrite start_timer_timers, start_timer_heap_length.
  destruct (decide (i = j)) as [->|N].
  - rewrite lookup_insert_eq. intros [= <-]. lia.
  - rewrite lookup_insert_ne by done. intros H%W. lia.
Qed.

Lemma ack_one_wf c seq : timers_wf c → timers_wf (ack_one c seq).
Proof.
  intros W j h. rewrite ack_one_timers, ack_one_heap_length.
  destruct (decide (seq = j)) as [->|N].
  - by rewrite lookup_delete_eq.
  - rewrite lookup_delete_ne by done. apply W.
Qed.

Lemma ack_loop_wf l c : timers_wf c → timers_wf (foldl ack_one c l).
Proof.
  revert c. induction l as [|a l IH]; intros c W; simpl; [done|].
  by apply IH, ack_one_wf.
Qed.

Lemma on_ack_wf k c : timers_wf c → timers_wf (on_ack k c).
Proof.
  intros W. destruct (Z_lt_le_dec k (base c)) as [H|H].
  - rewrite on_ack_stale by done. exact W.
  - rewrite on_ack_fresh by done.
    match goal with |- context [foldl ack_one ?c0 ?l] =>
      assert (W' : timers_wf (foldl ack_one c0 l))
        by (apply ack_loop_wf; exact W) end.
    exact W'.
Qed.

Lemma window_add_wf data a c : timers_wf c → timers_wf (window_add data a c).
Proof.
  intros W. unfold window_add.
  match goal with
  | |- context [start_timer ?i (send_packet ?i ?d ?r ?a ?x)] =>
      pose proof (send_packet_frame i d r a x) as F;
      assert (W' : timers_wf (start_timer i (send_packet i d r a x)))
  end.
  { apply start_timer_wf. cbv zeta in F.
    destruct F as (_ & _ & _ & _ & Ft & Fh & _).
    intros j h. rewrite Ft, Fh. apply W. }
  exact W'.
Qed.

Lemma step_wf c c' : step c c' → timers_wf c → timers_wf c'.
Proof.
  destruct 1 as [c|c data a _|c r|c seq atts|c _|c]; intros W.
  - exact W.
  - by apply window_add_wf.
  - unfold receive_acks_iter. destruct (running c), r as [|k| |v]; try done.
    + by apply on_ack_wf.
    + destruct (on_ack_value_cases v c) as [(k & _ & ->)|(_ & evs & ->)];
        [by apply on_ack_wf|done].
  - unfold timeout_handler. destruct (running c); simpl; [|done].
    by apply retransmit_loop_wf.
  - intros j h. simpl. by rewrite lookup_empty.
  - exact W.
Qed.

Lemma reachable_timers_wf ws p c : reachable ws p c → timers_wf c.
Proof.
  unfold reachable. intros R.
  apply (rtc_ind_r (R := step) timers_wf (init ws p)); [| |exact R].
  - intros j h. simpl. by rewrite lookup_empty.
  - intros y z _ S H. by eapply step_wf.
Qed.


Lemma one_acked_reachable : reachable 3 0 one_acked.
Proof.
  unfold one_acked.
  eapply rtc_r; [apply two_in_flight_reachable|].
  apply (step_ack two_in_flight (AckDatagram 0)).
Qed.


(** The loops of [send_data] and [receive_acks] are runs of [step]. *)
Lemma fill_window_steps messages atts c :
  rtc step c (fill_window messages atts c).2.
Proof.
  revert atts c. induction messages as [|data rest IH]; intros atts c; simpl;
    [apply rtc_refl|].
  destruct (window_has_room c) eqn:R; [|apply rtc_refl].
  eapply rtc_l; [by apply (step_add c data (hd clean atts))|apply IH].
Qed.

Lemma receive_acks_steps rs c : rtc step c (receive_acks rs c).
Proof.
  unfold receive_acks. revert c.
  induction rs as [|r rs IH]; intros c; simpl; [apply rtc_refl|].
  eapply rtc_l; [apply (step_ack c r)|apply IH].
Qed.

(** The loop does not read the log. *)
Lemma forget_log_send_packet i d r a c :
  forget_log (send_packet i d r a c) =
  forget_log (send_packet i d r a (forget_log c)).
Proof.
  unfold send_packet, simulate_packet_loss, forget_log. plumbing.
  destruct (loss_trial _ a), (sendto_ok a), r; reflexivity.
Qed.

Lemma forget_log_start_timer i c :
  forget_log (start_timer i c) = forget_log (start_timer i (forget_log c)).
Proof. reflexivity. Qed.

Lemma forget_log_retransmit_one atts c i :
  forget_log (retransmit_one atts c i) =
  forget_log (retransmit_one atts (forget_log c) i).
Proof.
  unfold retransmit_one.
  change (window (forget_log c)) with (window c).
  destruct (window c !! i) as [d|]; [|reflexivity].
  rewrite forget_log_start_timer, forget_log_send_packet.
  by rewrite <- forget_log_start_timer.
Qed.

Lemma forget_log_retransmit_loop atts l c :
  forget_log (foldl (retransmit_one atts) c l) =
  forget_log (foldl (retransmit_one atts) (forget_log c) l).
Proof.
  revert c. induction l as [|a l IH]; intros c; simpl; [reflexivity|].
  rewrite IH, forget_log_retransmit_one.
  by rewrite <- IH.
Qed.

Lemma timeout_handler_ignores_seq seq seq' atts c :
  forget_log (timeout_handler seq atts c) =
  forget_log (timeout_handler seq' atts c).
Proof.
  destruct (running c) eqn:R.
  - rewrite !timeout_handler_running by done.
    rewrite forget_log_retransmit_loop.
    by rewrite (forget_log_retransmit_loop _ _ (log_event _ (Some seq') c)).
  - by rewrite !timeout_handler_stopped.
Qed.





(** Claim C3, as far as it holds.  [timeout_handler] never looks at the
    sequence number it is fired for.  A timer that fires for a sequence number
    that is no longer in the window changes nothing when the sender is not
    running, and only logs [TIMEOUT] when no sequence number of
    [[base, next_seq_num)] is in the window; on a running sender it puts the
    datagrams of all outstanding sequence numbers on the socket, and in every
    case it leaves the state that a firing for any other sequence number
    leaves, log apart. *)
Theorem stale_timer_firing (c : client) (seq : Z) (atts : Z → attempt) :
  window c !! seq = None →
  let c' := timeout_handler seq atts c in
  (running c = false → c' = c) ∧
  (running c = true → outstanding c = [] →
     c' = log_event "TIMEOUT" (Some seq) c) ∧
  (running c = true →
     sock c' =
     sock c ++
     omap (retx_packet (loss_probability c) (window c) atts) (outstanding c)) ∧
  (∀ seq', forget_log c' = forget_log (timeout_handler seq' atts c)).
Proof.
  intros _ c'. subst c'. split; [|split; [|split]].
  - apply timeout_handler_stopped.
  - intros R O. rewrite timeout_handler_running by done.
    unfold outstanding in O.
    set (c0 := log_event "TIMEOUT" (Some seq) c).
    set (l := seqZ (base c) (next_seq_num c - base c)) in *.
    assert (F : Forall (λ i, window c0 !! i = None) l).
    { apply Forall_forall. intros i I.
      destruct (window c0 !! i) as [d|] eqn:E; [|done].
      assert (i ∈ filter (λ i, is_Some (window c !! i)) l) as X.
      { apply list_elem_of_filter. split; [|done]. exists d. exact E. }
      rewrite O in X. by apply elem_of_nil in X. }
    clearbody c0 l. clear O. revert F.
    induction l as [|a l IH]; intros F; simpl; [done|].
    apply Forall_cons in F as [Fa F].
    rewrite retransmit_one_absent by done. by apply IH.
  - intros R. rewrite timeout_handler_running by done.
    rewrite retransmit_loop_sock. reflexivity.
  - intros seq'. apply timeout_handler_ignores_seq.
Qed.

Lemma stale_timer_firing_witness :
  window one_acked !! 0 = None ∧
  forget_log (timeout_handler 0 (λ _, clean) one_acked) =
  forget_log (timeout_handler 1 (λ _, clean) one_acked).
Proof.
  split; [reflexivity|].
  destruct (stale_timer_firing one_acked 0 (λ _, clean) eq_refl)
    as (_ & _ & _ & S).
  exact (S 1).
Defined.

(** Claim C3 as stated fails: sequence number 0 has been acknowledged and
    removed, sequence number 1 is still in the window; the timer of 0 firing
    retransmits 1. *)
Lemma stale_timer_firing_counterexample :
  reachable 3 0 one_acked ∧ running one_acked = true ∧
  window one_acked !! 0 = None ∧ timers one_acked !! 0 = None ∧
  sock (timeout_handler 0 (λ _, clean) one_acked) =
    sock one_acked ++ [Packet 1 "b"] ∧
  retransmissions (stats (timeout_handler 0 (λ _, clean) one_acked)) =
    retransmissions (stats one_acked) + 1 ∧
  forget_log (timeout_handler 0 (λ _, clean) one_acked) ≠ forget_log one_acked.
Proof.
  split; [exact one_acked_reachable|]. split; [reflexivity|].
  split; [reflexivity|]. split; [reflexivity|].
  split; [reflexivity|]. split; [reflexivity|].
  intros E. apply (f_equal (λ c, length (sock c))) in E.
  vm_compute in E. discriminate.
Qed.

(** ** The counters of transmissions *)

Lemma retransmit_one_stats atts c i :
  let n := Z.of_nat (length
             (if decide (is_Some (window c !! i))
              then option_list (retx_packet (loss_probability c) (window c) atts i)
              else [])) in
  packets_sent (stats (retransmit_one atts c i)) = packets_sent (stats c) + n ∧
  retransmissions (stats (retransmit_one atts c i)) =
    retransmissions (stats c) + n.
Proof.
  cbv zeta. destruct (window c !! i) as [d|] eqn:E.
  - rewrite decide_True by eauto.
    rewrite (retransmit_one_present _ _ _ _ E).
    pose proof (start_timer_frame i (send_packet i d true (atts i) c)) as F.
    cbv zeta in F. destruct F as (_ & _ & _ & _ & _ & _ & -> & _).
    pose proof (send_packet_stats i d true (atts i) c) as (-> & -> & _).
    unfold retx_packet. rewrite E, andb_true_r.
    destruct (delivered _ _); simpl; lia.
  - rewrite decide_False by (intros [? ?]; done).
    rewrite retransmit_one_absent by done. simpl. lia.
Qed.

Lemma retransmit_loop_stats atts l c :
  let n := Z.of_nat (length
             (omap (retx_packet (loss_probability c) (window c) atts)
                   (filter (λ i, is_Some (window c !! i)) l))) in
  packets_sent (stats (foldl (retransmit_one atts) c l)) =
    packets_sent (stats c) + n ∧
  retransmissions (stats (foldl (retransmit_one atts) c l)) =
    retransmissions (stats c) + n.
Proof.
  cbv zeta. revert c. induction l as [|a l IH]; intros c; simpl.
  - lia.
  - destruct (IH (retransmit_one atts c a)) as [-> ->].
    pose proof (retransmit_one_stats atts c a) as [-> ->].
    pose proof (retransmit_one_frame atts c a) as F. cbv zeta in F.
    destruct F as (_ & _ & _ & -> & -> & _).
    rewrite filter_cons. case_decide; unfold omap; cbn [list_omap].
    + destruct (retx_packet _ _ _ a); simpl; lia.
    + simpl. lia.
Qed.

Lemma timeout_handler_stats seq atts c :
  packets_sent (stats (timeout_handler seq atts c)) =
    packets_sent (stats c) + retx_count atts c ∧
  retransmissions (stats (timeout_handler seq atts c)) =
    retransmissions (stats c) + retx_count atts c ∧
  0 ≤ retx_count atts c.
Proof.
  unfold retx_count. destruct (running c) eqn:R.
  - rewrite timeout_handler_running by done.
    match goal with |- context [foldl _ ?c0 ?l] =>
      pose proof (retransmit_loop_stats atts l c0) as [-> ->] end.
    unfold outstanding. plumbing. lia.
  - rewrite timeout_handler_stopped by done. lia.
Qed.

Lemma window_add_sent data a c :
  packets_sent (stats (window_add data a c)) =
    packets_sent (stats c) + (if delivered (loss_probability c) a then 1 else 0) ∧
  retransmissions (stats (window_add data a c)) = retransmissions (stats c) ∧
  next_seq_num (window_add data a c) = next_seq_num c + 1.
Proof.
  unfold window_add.
  change (stats (set_next_seq_num ?v (log_event ?e ?s (start_timer ?i ?x))))
    with (stats x).
  match goal with |- context [send_packet ?i ?d ?r ?a ?x] =>
    pose proof (send_packet_stats i d r a x) as (-> & -> & _);
    pose proof (send_packet_frame i d r a x) as F;
    pose proof (start_timer_frame i (send_packet i d r a x)) as G
  end.
  cbv zeta in F, G. destruct F as (_ & _ & F & _).
  destruct G as (_ & _ & G & _).
  rewrite andb_false_r. split; [reflexivity|]. split.
  - change (stats (set_window ?w c)) with (stats c). lia.
  - change (next_seq_num (set_next_seq_num ?v ?x)) with v.
    change (next_seq_num (log_event ?e ?q ?x)) with (next_seq_num x).
    rewrite G, F. reflexivity.
Qed.

Lemma receive_acks_iter_sent r c :
  packets_sent (stats (receive_acks_iter r c)) = packets_sent (stats c) ∧
  retransmissions (stats (receive_acks_iter r c)) = retransmissions (stats c) ∧
  next_seq_num (receive_acks_iter r c) = next_seq_num c.
Proof.
  assert (K : ∀ k,
    packets_sent (stats (on_ack k c)) = packets_sent (stats c) ∧
    retransmissions (stats (on_ack k c)) = retransmissions (stats c) ∧
    next_seq_num (on_ack k c) = next_seq_num c).
  { intros k. pose proof (on_ack_frame c k) as (_ & N & _ & _ & S & _).
    cbv zeta in N, S. by rewrite N, S. }
  unfold receive_acks_iter. destruct (running c), r as [|k| |v]; try done.
  destruct (on_ack_value_cases v c) as [(k & _ & ->)|(_ & evs & ->)]; done.
Qed.

(** The datagrams that were not counted as retransmissions are at most one
    for each sequence number that was assigned. *)
Lemma reachable_first_sends ws p c :
  reachable ws p c →
  packets_sent (stats c) - retransmissions (stats c) ≤ next_seq_num c.
Proof.
  unfold reachable. intros R.
  apply (rtc_ind_r (R := step)
           (λ c, packets_sent (stats c) - retransmissions (stats c)
                 ≤ next_seq_num c) (init ws p)); [| |exact R].
  - simpl. lia.
  - intros y z _ S H. destruct S as [c0|c0 data a _|c0 r|c0 seq atts|c0 _|c0].
    + exact H.
    + destruct (window_add_sent data a c0) as (-> & -> & ->).
      destruct (delivered _ a); lia.
    + destruct (receive_acks_iter_sent r c0) as (-> & -> & ->). exact H.
    + destruct (timeout_handler_stats seq atts c0) as (-> & -> & _).
      pose proof (timeout_handler_frame seq atts c0) as F. cbv zeta in F.
      destruct F as (_ & _ & -> & _). lia.
    + exact H.
    + exact H.
Qed.

Lemma retransmitted_acked_reachable : reachable 3 0 retransmitted_acked.
Proof.
  unfold reachable, retransmitted_acked. eapply rtc_r; [|apply step_ack].
  eapply rtc_r; [exact two_in_flight_reachable|apply step_timeout].
Defined.

(** Claim C10.  A call of [send_packet] that reaches the socket adds one to
    [packets_sent], whether it is a first send or a retransmission, and adds
    one to [retransmissions] only when it is a retransmission; a call that
    does not reach the socket changes neither.  The callers keep the two
    apart: the loop of [send_data] that takes a new message never changes
    [retransmissions], a firing of a timer adds to both counters the number
    of datagrams it puts on the socket, and no other step of the sender
    changes [retransmissions].  Hence in every reachable sender state
    [0 <= retransmissions <= packets_sent], [packets_sent] is the number of
    datagrams handed to the socket, retransmitted ones included, the
    datagrams not counted as retransmissions are at most one for each assigned
    sequence number, and the protocol efficiency that the analyzer computes
    divides [acks_received] by that number of datagrams. *)
Theorem packets_sent_counts_retransmissions :
  (∀ seq data retx a c,
     let s := stats c in
     let s' := stats (send_packet seq data retx a c) in
     packets_sent s' =
       packets_sent s + (if delivered (loss_probability c) a then 1 else 0) ∧
     retransmissions s' =
       retransmissions s +
         (if delivered (loss_probability c) a && retx then 1 else 0)) ∧
  (∀ data a c,
     let s := stats c in
     let s' := stats (window_add data a c) in
     packets_sent s' =
       packets_sent s + (if delivered (loss_probability c) a then 1 else 0) ∧
     retransmissions s' = retransmissions s) ∧
  (∀ seq atts c,
     let s := stats c in
     let s' := stats (timeout_handler seq atts c) in
     packets_sent s' = packets_sent s + retx_count atts c ∧
     retransmissions s' = retransmissions s + retx_count atts c ∧
     Z.of_nat (length (sock (timeout_handler seq atts c))) =
       Z.of_nat (length (sock c)) + retx_count atts c) ∧
  (∀ c c',
     step c c' →
     retransmissions (stats c') ≠ retransmissions (stats c) →
     ∃ seq atts, c' = timeout_handler seq atts c ∧ 0 < retx_count atts c) ∧
  (∀ ws p c,
     reachable ws p c →
     0 ≤ retransmissions (stats c) ≤ packets_sent (stats c) ∧
     packets_sent (stats c) = Z.of_nat (length (sock c)) ∧
     packets_sent (stats c) - retransmissions (stats c) ≤ next_seq_num c ∧
     ∀ transmission_time messages_count,
       Metrics.protocol_efficiency
         (Metrics.calculate_advanced_metrics (stats c) transmission_time
            messages_count) =
       if 0 <? Z.of_nat (length (sock c))
       then (Metrics.truediv (acks_received (stats c))
               (Z.of_nat (length (sock c))) * 100)%Q
       else 0%Q).
Proof.
  split; [|split; [|split; [|split]]].
  - intros seq data retx a c.
    pose proof (send_packet_stats seq data retx a c) as (P & R & _).
    simpl in *. by rewrite P, R.
  - intros data a c. cbv zeta.
    destruct (window_add_sent data a c) as (-> & -> & _). done.
  - intros seq atts c. cbv zeta.
    destruct (timeout_handler_stats seq atts c) as (-> & -> & _).
    split; [done|]. split; [done|].
    unfold retx_count. destruct (running c) eqn:R.
    + rewrite timeout_handler_running by done.
      rewrite retransmit_loop_sock, length_app. unfold outstanding.
      plumbing. lia.
    + rewrite timeout_handler_stopped by done. lia.
  - intros c c' S N. destruct S as [c|c data a _|c r|c seq atts|c _|c].
    + by destruct N.
    + destruct (window_add_sent data a c) as (_ & E & _). by destruct N.
    + destruct (receive_acks_iter_sent r c) as (_ & E & _). by destruct N.
    + exists seq, atts. split; [done|].
      destruct (timeout_handler_stats seq atts c) as (_ & E & P). lia.
    + by destruct N.
    + by destruct N.
  - intros ws p c R.
    pose proof (reachable_first_sends ws p c R) as F.
    apply reachable_counters in R as (S & L). split; [done|].
    split; [done|]. split; [done|].
    intros t n. unfold Metrics.calculate_advanced_metrics. simpl.
    by rewrite S.
Qed.

Lemma packets_sent_counts_retransmissions_witness :
  packets_sent (stats retransmitted_acked) = 4 ∧
  retransmissions (stats retransmitted_acked) = 2 ∧
  (0 ≤ retransmissions (stats retransmitted_acked)
     ≤ packets_sent (stats retransmitted_acked) ∧
   packets_sent (stats retransmitted_acked) =
     Z.of_nat (length (sock retransmitted_acked)) ∧
   packets_sent (stats retransmitted_acked)
     - retransmissions (stats retransmitted_acked)
     ≤ next_seq_num retransmitted_acked) ∧
  (Metrics.protocol_efficiency
     (Metrics.calculate_advanced_metrics (stats retransmitted_acked) 1 2)
   == 25)%Q.
Proof.
  split; [vm_compute; reflexivity|]. split; [vm_compute; reflexivity|].
  destruct (proj2 (proj2 (proj2 (proj2 packets_sent_counts_retransmissions)))
              3 0%Q retransmitted_acked retransmitted_acked_reachable)
    as (A & B & C & D).
  split; [exact (conj A (conj B C))|].
  rewrite D. vm_compute. reflexivity.
Defined.

End sender.

(** * Properties of the receiver *)
Section receiver.
Import GBNServer.

Ltac plumbing :=
  unfold log_event, set_expected_seq_num, set_last_ack_sent, set_stats,
    set_log_entries, set_received_messages, set_sock,
    incr_packets_received, incr_packets_in_order, incr_packets_out_of_order,
    incr_acks_sent, incr_acks_lost in *;
  simpl in *.

(** ** What [send_ack] touches *)

Lemma send_ack_frame k addr a s :
  let s' := send_ack k addr a s in
  expected_seq_num s' = expected_seq_num s ∧
  received_messages s' = received_messages s ∧
  loss_probability s' = loss_probability s ∧
  packets_received (stats s') = packets_received (stats s) ∧
  packets_in_order (stats s') = packets_in_order (stats s) ∧
  packets_out_of_order (stats s') = packets_out_of_order (stats s).
Proof.
  unfold send_ack, simulate_ack_loss.
  destruct (loss_trial _ a), (sendto_ok a); plumbing; tauto.
Qed.

Lemma send_ack_log k addr a s :
  log_entries (send_ack k addr a s) =
  log_entries s ++ [LogEntry (ack_outcome (loss_probability s) a) (Some k)].
Proof.
  unfold send_ack, simulate_ack_loss, ack_outcome.
  destruct (loss_trial _ a), (sendto_ok a); reflexivity.
Qed.

Lemma send_ack_sock k addr a s :
  sock (send_ack k addr a s) =
  sock s ++ (if delivered (loss_probability s) a then [(k, addr)] else []).
Proof.
  unfold send_ack, simulate_ack_loss, delivered.
  destruct (loss_trial _ a), (sendto_ok a); plumbing; by rewrite ?app_nil_r.
Qed.

Lemma send_ack_last k addr a s :
  last_ack_sent (send_ack k addr a s) =
  if delivered (loss_probability s) a then k else last_ack_sent s.
Proof.
  unfold send_ack, simulate_ack_loss, delivered.
  destruct (loss_trial _ a), (sendto_ok a); reflexivity.
Qed.


(** ** [process_packet] by cases *)

Lemma process_packet_malformed d addr a s :
  malformed d = true →
  process_packet d addr a s = (None, log_event "ERROR" None s).
Proof.
  destruct d as [| | |[seq|] [data|]]; simpl; try done.
Qed.

(** What is no number for one comparison is none for any, and equals no
    integer. *)
Lemma py_lt_none v n m :
  py_lt v n = None → py_lt v m = None ∧ py_eq v m = false.
Proof. destruct v as [|b|z|[q|neg|]|t|l|l]; simpl; try done. Qed.

Lemma py_eq_whole v n : py_eq v n = true → whole v = Some n.
Proof.
  destruct v as [|b|z|[q|neg|]|t|l|l]; simpl; try done.
  - intros E. apply Z.eqb_eq in E. by rewrite E.
  - intros E. apply Z.eqb_eq in E. by rewrite E.
  - intros E. apply Qeq_bool_iff in E. unfold Qeq in E. simpl in E.
    rewrite Z.mul_1_r in E. rewrite E, Z.mod_mul, Z.eqb_refl by done.
    by rewrite Z.div_mul.
Qed.

(** A record whose [seq_num] is no number: counted as received and as out of
    order, then the comparison raises and the last handler logs. *)
Lemma process_packet_unnumbered v w addr a s :
  unnumbered (record v w) = true →
  process_packet (record v w) addr a s =
  (None,
   log_event "ERROR" None
     (set_stats (incr_packets_out_of_order (incr_packets_received (stats s)))
        (log_event "RECV" (whole v) s))).
Proof.
  unfold unnumbered, record. destruct (py_lt v 0) eqn:E; [done|]. intros _.
  destruct (py_lt_none v 0 (expected_seq_num s) E) as [L Q].
  unfold process_packet, process_packet_try.
  change (expected_seq_num (log_event ?e ?q (set_stats ?t s)))
    with (expected_seq_num s).
  rewrite Q. cbv zeta.
  change (expected_seq_num (set_stats ?t (log_event ?e ?q (set_stats ?t' s))))
    with (expected_seq_num s).
  rewrite L. reflexivity.
Qed.

(** The state a rejected record leaves before the duplicate ACK. *)
Lemma record_reject v w addr a s before :
  py_eq v (expected_seq_num s) = false →
  py_lt v (expected_seq_num s) = Some before →
  let s4 :=
    log_event (if before then "DUPLICATE" else "OUT_OF_ORDER") (whole v)
      (set_stats (incr_packets_out_of_order (incr_packets_received (stats s)))
         (log_event "RECV" (whole v) s)) in
  after (record v w) addr a s =
  if 0 <=? last_ack_sent s
  then log_event "DUP_ACK"
         (Some (last_ack_sent (send_ack (last_ack_sent s) addr a s4)))
         (send_ack (last_ack_sent s) addr a s4)
  else s4.
Proof.
  intros Q L. unfold after, record, process_packet, process_packet_try.
  change (expected_seq_num (log_event ?e ?q (set_stats ?t s)))
    with (expected_seq_num s).
  rewrite Q. cbv zeta.
  change (expected_seq_num (set_stats ?t (log_event ?e ?q (set_stats ?t' s))))
    with (expected_seq_num s).
  rewrite L.
  destruct before;
    change (last_ack_sent (log_event ?e ?q
              (set_stats ?t (log_event ?e' ?q' (set_stats ?t' s)))))
      with (last_ack_sent s);
    destruct (0 <=? last_ack_sent s); reflexivity.
Qed.

Lemma record_accept v w addr a s :
  py_eq v (expected_seq_num s) = true →
  after (record v w) addr a s =
  send_ack (expected_seq_num s) addr a
    (set_expected_seq_num (expected_seq_num s + 1)
       (log_event "ACCEPT" (Some (expected_seq_num s))
          (set_received_messages
             (received_messages s ++ [Message (expected_seq_num s) w])
             (set_stats
                (incr_packets_in_order (incr_packets_received (stats s)))
                (log_event "RECV" (Some (expected_seq_num s)) s))))).
Proof.
  intros Q. unfold after, record, process_packet, process_packet_try.
  change (expected_seq_num (log_event ?e ?q (set_stats ?t s)))
    with (expected_seq_num s).
  rewrite Q, (py_eq_whole _ _ Q). reflexivity.
Qed.

(** The same for a packet as the sender writes it. *)
Lemma process_packet_reject seq data addr a s :
  seq ≠ expected_seq_num s →
  let s4 :=
    log_event (if seq <? expected_seq_num s then "DUPLICATE" else "OUT_OF_ORDER")
      (Some seq)
      (set_stats (incr_packets_out_of_order (incr_packets_received (stats s)))
         (log_event "RECV" (Some seq) s)) in
  after (well_formed seq data) addr a s =
  if 0 <=? last_ack_sent s
  then log_event "DUP_ACK"
         (Some (last_ack_sent (send_ack (last_ack_sent s) addr a s4)))
         (send_ack (last_ack_sent s) addr a s4)
  else s4.
Proof.
  intros N. unfold well_formed.
  apply (record_reject (JInt seq) data addr a s (seq <? expected_seq_num s));
    [by apply Z.eqb_neq|reflexivity].
Qed.


(** ** What a record does to the receiver *)

Lemma record_accept_effect v w addr a s :
  py_eq v (expected_seq_num s) = true →
  let s' := after (record v w) addr a s in
  expected_seq_num s' = expected_seq_num s + 1 ∧
  received_messages s' =
    received_messages s ++ [Message (expected_seq_num s) w] ∧
  sock s' =
    sock s ++
    (if delivered (loss_probability s) a
     then [(expected_seq_num s, addr)] else []) ∧
  last_ack_sent s' =
    (if delivered (loss_probability s) a
     then expected_seq_num s else last_ack_sent s) ∧
  loss_probability s' = loss_probability s.
Proof.
  intros Q. cbv zeta. rewrite (record_accept _ _ _ _ _ Q).
  match goal with |- context [send_ack ?k ?ad ?at' ?x] =>
    pose proof (send_ack_frame k ad at' x) as (Fe & Fr & Fp & _);
    rewrite (send_ack_sock k ad at' x), (send_ack_last k ad at' x), Fe, Fr, Fp
  end.
  repeat split.
Qed.

Lemma record_reject_effect v w addr a s before :
  py_eq v (expected_seq_num s) = false →
  py_lt v (expected_seq_num s) = Some before →
  let s' := after (record v w) addr a s in
  expected_seq_num s' = expected_seq_num s ∧
  received_messages s' = received_messages s ∧
  sock s' =
    sock s ++
    (if decide (0 ≤ last_ack_sent s)
     then if delivered (loss_probability s) a
          then [(last_ack_sent s, addr)] else []
     else []) ∧
  last_ack_sent s' = last_ack_sent s ∧
  loss_probability s' = loss_probability s.
Proof.
  intros Q L. cbv zeta. rewrite (record_reject _ _ _ _ _ _ Q L). cbv zeta.
  destruct (Z.leb_spec 0 (last_ack_sent s)) as [P|P].
  - rewrite decide_True by done.
    match goal with |- context [send_ack ?k ?ad ?at' ?x] =>
      pose proof (send_ack_frame k ad at' x) as (Fe & Fr & Fp & _);
      pose proof (send_ack_sock k ad at' x) as Fs;
      pose proof (send_ack_last k ad at' x) as Fl
    end.
    change (expected_seq_num (log_event ?e ?q ?x)) with (expected_seq_num x).
    change (received_messages (log_event ?e ?q ?x)) with (received_messages x).
    change (sock (log_event ?e ?q ?x)) with (sock x).
    change (last_ack_sent (log_event ?e ?q ?x)) with (last_ack_sent x).
    change (loss_probability (log_event ?e ?q ?x)) with (loss_probability x).
    rewrite Fe, Fr, Fs, Fl, Fp.
    repeat split. by destruct (delivered _ a).
  - rewrite decide_False by lia. rewrite app_nil_r. repeat split.
Qed.

Lemma after_accept data addr a s :
  let s' := after (well_formed (expected_seq_num s) data) addr a s in
  expected_seq_num s' = expected_seq_num s + 1 ∧
  received_messages s' =
    received_messages s ++ [Message (expected_seq_num s) data] ∧
  sock s' =
    sock s ++
    (if delivered (loss_probability s) a
     then [(expected_seq_num s, addr)] else []) ∧
  last_ack_sent s' =
    (if delivered (loss_probability s) a
     then expected_seq_num s else last_ack_sent s) ∧
  loss_probability s' = loss_probability s.
Proof.
  apply (record_accept_effect (JInt (expected_seq_num s)) data).
  apply Z.eqb_refl.
Qed.

Lemma after_reject seq data addr a s :
  seq ≠ expected_seq_num s →
  let s' := after (well_formed seq data) addr a s in
  expected_seq_num s' = expected_seq_num s ∧
  received_messages s' = received_messages s ∧
  sock s' =
    sock s ++
    (if decide (0 ≤ last_ack_sent s)
     then if delivered (loss_probability s) a
          then [(last_ack_sent s, addr)] else []
     else []) ∧
  last_ack_sent s' = last_ack_sent s ∧
  loss_probability s' = loss_probability s.
Proof.
  intros N.
  apply (record_reject_effect (JInt seq) data addr a s
           (seq <? expected_seq_num s)); [by apply Z.eqb_neq|reflexivity].
Qed.

Lemma after_malformed d addr a s :
  malformed d = true → after d addr a s = log_event "ERROR" None s.
Proof. intros M. unfold after. by rewrite process_packet_malformed. Qed.

Lemma after_unnumbered v w addr a s :
  unnumbered (record v w) = true →
  after (record v w) addr a s =
  log_event "ERROR" None
    (set_stats (incr_packets_out_of_order (incr_packets_received (stats s)))
       (log_event "RECV" (whole v) s)).
Proof. intros U. unfold after. by rewrite process_packet_unnumbered. Qed.

(** Every datagram is malformed, or a record whose [seq_num] is no number,
    or a record whose number is the cursor, or a record with another
    number. *)
Lemma datagram_cases d s :
  malformed d = true ∨
  (∃ v w, d = record v w ∧ unnumbered (record v w) = true) ∨
  (∃ v w, d = record v w ∧ py_eq v (expected_seq_num s) = true) ∨
  (∃ v w before, d = record v w ∧
     py_eq v (expected_seq_num s) = false ∧
     py_lt v (expected_seq_num s) = Some before).
Proof.
  destruct d as [| | |[v|] [w|]]; try (by left). right.
  fold (record v w). destruct (py_lt v 0) as [b0|] eqn:L0.
  - right. destruct (py_eq v (expected_seq_num s)) eqn:Q;
      [left; by exists v, w|].
    right. destruct (py_lt v (expected_seq_num s)) as [b|] eqn:L.
    + by exists v, w, b.
    + apply (py_lt_none v _ 0) in L as [L _]. congruence.
  - left. exists v, w. split; [done|]. unfold unnumbered, record.
    by rewrite L0.
Qed.

(** What a dropped datagram leaves alone. *)
Lemma after_dropped d addr a s :
  dropped d = true →
  let s' := after d addr a s in
  expected_seq_num s' = expected_seq_num s ∧
  received_messages s' = received_messages s ∧
  sock s' = sock s ∧
  last_ack_sent s' = last_ack_sent s ∧
  loss_probability s' = loss_probability s.
Proof.
  unfold dropped. intros D. cbv zeta.
  destruct (malformed d) eqn:M.
  - rewrite after_malformed by done. repeat split.
  - simpl in D. destruct d as [| | |[v|] [w|]]; try discriminate.
    fold (record v w) in *. rewrite after_unnumbered by done. repeat split.
Qed.

(** ** The claims about the receiver *)

(** Claim C5.  A well-formed packet whose sequence number differs from
    [expected_seq_num] never appends to [received_messages] and never changes
    [expected_seq_num]. *)
Theorem reject_keeps_cursor_and_log (s : server) (seq : Z) (data : string)
    (addr : address) (a : attempt) :
  seq ≠ expected_seq_num s →
  let s' := after (well_formed seq data) addr a s in
  received_messages s' = received_messages s ∧
  expected_seq_num s' = expected_seq_num s.
Proof.
  intros N. cbv zeta. rewrite (process_packet_reject _ _ _ _ _ N). cbv zeta.
  destruct (0 <=? last_ack_sent s); [|done].
  match goal with |- context [send_ack ?k ?ad ?at' ?x] =>
    pose proof (send_ack_frame k ad at' x) as F end.
  cbv zeta in F. destruct F as (E & R & _).
  change (received_messages (log_event ?e ?q ?x)) with (received_messages x).
  change (expected_seq_num (log_event ?e ?q ?x)) with (expected_seq_num x).
  rewrite E, R. done.
Qed.

Lemma reject_keeps_cursor_and_log_witness :
  7 ≠ expected_seq_num two_accepted ∧
  received_messages
    (after (well_formed 7 "x") ("localhost"%string, 5000) clean two_accepted) =
  [Message 0 "a"; Message 1 "b"] ∧
  expected_seq_num
    (after (well_formed 7 "x") ("localhost"%string, 5000) clean two_accepted) = 2.
Proof.
  assert (N : 7 ≠ expected_seq_num two_accepted) by (vm_compute; discriminate).
  split; [exact N|].
  destruct (reject_keeps_cursor_and_log two_accepted 7 "x"
              ("localhost"%string, 5000) clean N) as [R E].
  split; [rewrite R|rewrite E]; reflexivity.
Defined.



Lemma two_accepted_reachable : reachable 0 two_accepted.
Proof.
  unfold reachable, two_accepted.
  eapply rtc_l; [apply step_packet|].
  eapply rtc_l; [apply step_packet|].
  apply rtc_refl.
Defined.







End receiver.

(** * Properties of the derived metrics *)
Section metrics.
Import Metrics.
Local Open Scope Q_scope.

Lemma Qlt_bool_iff (x y : Q) : Qlt_bool x y = true ↔ x < y.
Proof.
  unfold Qlt_bool. rewrite negb_true_iff, <- not_true_iff_false, Qle_bool_iff.
  split; [apply Qnot_le_lt|apply Qlt_not_le].
Qed.

Lemma guarded_ratio_pos (num den : Q) :
  0 < den → guarded_ratio num den = num / den.
Proof.
  intros H. unfold guarded_ratio.
  destruct (Qeq_bool den 0) eqn:E; [|done].
  apply Qeq_bool_iff in E. rewrite E in H. by apply Qlt_irrefl in H.
Qed.

Lemma guarded_ratio_zero (num den : Q) :
  den == 0 → guarded_ratio num den = 0.
Proof.
  intros H. unfold guarded_ratio. by rewrite (proj2 (Qeq_bool_iff _ _) H).
Qed.

(** The guard [x / y if y > 0 else 0] of the analyzer against the guard of
    the specification, on a non-negative integer denominator. *)
Lemma guard_int (x y : Z) :
  (0 ≤ y)%Z →
  (if (0 <? y)%Z then truediv x y * 100 else 0) =
  guarded_ratio (inject_Z x) (inject_Z y) * 100.
Proof.
  intros H. destruct (Z.ltb_spec 0 y) as [L|L].
  - rewrite guarded_ratio_pos; [done|].
    change (inject_Z 0 < inject_Z y). by rewrite <- Zlt_Qlt.
  - assert (y = 0%Z) as -> by lia. by rewrite guarded_ratio_zero.
Qed.

Lemma guard_time (x t : Q) :
  0 <= t →
  (if Qlt_bool 0 t then x / t else 0) = guarded_ratio x t.
Proof.
  intros H. destruct (Qlt_bool 0 t) eqn:E.
  - apply Qlt_bool_iff in E. by rewrite guarded_ratio_pos.
  - rewrite guarded_ratio_zero; [done|].
    apply Qle_antisym; [|done]. apply Qnot_lt_le. intros L.
    apply Qlt_bool_iff in L. congruence.
Qed.

(** Claim C8, as far as it holds.  On non-negative counters and a
    non-negative elapsed time, the analyzer computes the loss rate and the
    protocol efficiency of the specification as percentages (times 100),
    throughput and goodput as specified, and its retransmission rate as
    retransmissions per message (times 100), with [0] for a zero denominator;
    [print_statistics] computes loss rate and retransmission rate per packet
    sent, as percentages, and only when a packet was sent. *)
Theorem metrics_definitions (stats : GBNClient.stats_t) (t : Q) (n : Z) :
  (0 ≤ GBNClient.packets_sent stats)%Z →
  (0 ≤ GBNClient.packets_lost stats)%Z →
  (0 ≤ n)%Z →
  0 <= t →
  let sent := GBNClient.packets_sent stats in
  let lost := GBNClient.packets_lost stats in
  let retx := GBNClient.retransmissions stats in
  let acks := GBNClient.acks_received stats in
  let m := calculate_advanced_metrics stats t n in
  effective_loss_rate m = spec_loss_rate lost sent * 100 ∧
  protocol_efficiency m = spec_protocol_efficiency acks sent * 100 ∧
  retransmission_rate m =
    guarded_ratio (inject_Z retx) (inject_Z n) * 100 ∧
  throughput m = spec_throughput n t ∧
  goodput m = spec_goodput acks t ∧
  print_statistics_rates stats =
    (if (0 <? sent)%Z
     then Some (spec_loss_rate lost sent * 100,
                spec_retransmission_rate retx sent * 100)
     else None).
Proof.
  intros S L N T. cbv zeta.
  unfold calculate_advanced_metrics, print_statistics_rates,
    spec_loss_rate, spec_protocol_efficiency, spec_retransmission_rate,
    spec_throughput, spec_goodput. simpl.
  rewrite !guard_int by lia. rewrite !guard_time by assumption.
  repeat (split; [reflexivity|]).
  destruct (Z.ltb_spec 0 (GBNClient.packets_sent stats)) as [P|P]; [|done].
  pose proof (guard_int (GBNClient.packets_lost stats)
                (GBNClient.packets_sent stats + GBNClient.packets_lost stats))
    as G1.
  pose proof (guard_int (GBNClient.retransmissions stats)
                (GBNClient.packets_sent stats)) as G2.
  rewrite (proj2 (Z.ltb_lt _ _)) in G1 by lia.
  rewrite (proj2 (Z.ltb_lt _ _)) in G2 by lia.
  rewrite G1, G2 by lia. done.
Qed.

Lemma metrics_definitions_witness :
  effective_loss_rate (calculate_advanced_metrics sample_stats 2 2) == 20 ∧
  retransmission_rate (calculate_advanced_metrics sample_stats 2 2) == 50 ∧
  throughput (calculate_advanced_metrics sample_stats 2 2) == 1.
Proof.
  destruct (metrics_definitions sample_stats 2 2)
    as (E1 & _ & E3 & E4 & _); try (vm_compute; discriminate).
  rewrite E1, E3, E4. repeat split.
Defined.

(** Claim C8 as stated fails: with 4 packets sent, 1 lost, 1 retransmission
    and 2 messages the analyzer reports a loss rate of 20 (a percentage, not
    the quotient 1/5) and a retransmission rate of 50 (per message, where the
    quotient per packet sent is 1/4); and with no packet sent but one lost,
    [print_statistics] computes no loss rate at all. *)
Lemma metrics_definitions_counterexample :
  ¬ effective_loss_rate (calculate_advanced_metrics sample_stats 2 2)
    == spec_loss_rate 1 4 ∧
  ¬ retransmission_rate (calculate_advanced_metrics sample_stats 2 2)
    == spec_retransmission_rate 1 4 ∧
  ¬ retransmission_rate (calculate_advanced_metrics sample_stats 2 2)
    == spec_retransmission_rate 1 4 * 100 ∧
  print_statistics_rates (GBNClient.Stats 0 0 0 0 1) = None.
Proof.
  repeat split; intros H; vm_compute in H; discriminate.
Qed.

End metrics.

(** * Further properties of the sender: timers, batches, runs *)
Section sender_runs.
Import GBNClient.

Ltac plumbing :=
  unfold log_event, set_base, set_next_seq_num, set_window, set_timers,
    set_stats, set_log_entries, set_running, set_sock,
    incr_packets_sent, incr_retransmissions, incr_acks_received,
    incr_packets_lost in *;
  simpl in *.

(** ** The registry and the Timer objects *)

Lemma heap_ok_inj T H i j h :
  heap_ok T H → T !! i = Some h → T !! j = Some h → i = j.
Proof.
  intros [A _] Hi Hj. apply A in Hi. apply A in Hj.
  unfold is_armed in *. congruence.
Qed.

Lemma heap_ok_lt T H i h : heap_ok T H → T !! i = Some h → (h < length H)%nat.
Proof. intros [A _] Hi. apply A in Hi. by eapply lookup_lt_Some. Qed.

Lemma heap_ok_start i T H :
  heap_ok T H →
  let H1 := match T !! i with Some h => cancel h H | None => H end in
  heap_ok (<[i := length H]> T) (H1 ++ [TimerObj i false]).
Proof.
  intros OK H1.
  assert (L1 : length H1 = length H).
  { subst H1. destruct (T !! i); by rewrite ?length_cancel. }
  assert (old : ∀ h, (h < length H)%nat → T !! i ≠ Some h → H1 !! h = H !! h).
  { intros h L N. subst H1. destruct (T !! i) as [h'|]; [|done].
    unfold cancel. rewrite list_lookup_alter_ne; [done|congruence]. }
  pose proof OK as [A B]. split.
  - intros j h. destruct (decide (i = j)) as [->|N].
    + rewrite lookup_insert_eq. intros [= <-]. unfold is_armed.
      rewrite lookup_app_r by lia. by rewrite L1, Nat.sub_diag.
    + rewrite lookup_insert_ne by done. intros Hj. unfold is_armed.
      pose proof (heap_ok_lt _ _ _ _ OK Hj) as L.
      rewrite lookup_app_l by lia. rewrite old; [by apply A|done|].
      intros Hi. apply N. by eapply heap_ok_inj.
  - intros h t Ht Live.
    destruct (decide (h < length H)%nat) as [L|L].
    + rewrite lookup_app_l in Ht by lia.
      destruct (decide (T !! i = Some h)) as [E|N].
      * subst H1. rewrite E in Ht.
        destruct (lookup_lt_is_Some_2 _ _ L) as [t0 Ht0].
        rewrite (cancel_cancels _ _ _ Ht0) in Ht. injection Ht as <-.
        discriminate.
      * rewrite old in Ht by done. pose proof (B _ _ Ht Live) as R.
        rewrite lookup_insert_ne; [done|]. intros Q. rewrite <- Q in R.
        congruence.
    + assert (h = length H) as ->.
      { apply lookup_lt_Some in Ht. rewrite length_app in Ht. simpl in Ht. lia. }
      rewrite lookup_app_r in Ht by lia.
      rewrite L1, Nat.sub_diag in Ht. injection Ht as <-.
      simpl. by rewrite lookup_insert_eq.
Qed.

Lemma heap_ok_stop i T H :
  heap_ok T H →
  let H1 := match T !! i with Some h => cancel h H | None => H end in
  heap_ok (delete i T) H1.
Proof.
  intros OK H1. pose proof OK as [A B].
  destruct (T !! i) as [h0|] eqn:E; subst H1.
  - split.
    + intros j h. destruct (decide (i = j)) as [->|N].
      * by rewrite lookup_delete_eq.
      * rewrite lookup_delete_ne by done. intros Hj. unfold is_armed, cancel.
        rewrite list_lookup_alter_ne; [by apply A|].
        intros ->. apply N. by eapply heap_ok_inj.
    + intros h t Ht Live. unfold cancel in Ht.
      destruct (decide (h0 = h)) as [->|N].
      * rewrite list_lookup_alter_eq in Ht.
        destruct (H !! h); simpl in Ht; [|done]. injection Ht as <-.
        discriminate.
      * rewrite list_lookup_alter_ne in Ht by done.
        pose proof (B _ _ Ht Live) as R.
        rewrite lookup_delete_ne; [done|]. intros Q. rewrite <- Q in R.
        congruence.
  - rewrite delete_id by done. exact OK.
Qed.

Lemma stop_timer_heap seq c :
  timer_heap (stop_timer seq c) =
  match timers c !! seq with
  | Some h => cancel h (timer_heap c)
  | None => timer_heap c
  end.
Proof. unfold stop_timer. by destruct (timers c !! seq). Qed.

Lemma start_timer_heap_ok i c :
  heap_ok (timers c) (timer_heap c) →
  heap_ok (timers (start_timer i c)) (timer_heap (start_timer i c)).
Proof.
  intros OK. rewrite start_timer_timers, start_timer_heap.
  by apply heap_ok_start.
Qed.








(** [session_end] cancels what the registry holds. *)
Lemma cancel_all_spec (T : gmap Z nat) (H : list timer_obj) :
  let H' := map_fold (λ _ h heap, cancel h heap) H T in
  length H' = length H ∧
  (∀ h, is_cancelled H h → is_cancelled H' h) ∧
  (∀ i h, T !! i = Some h → (h < length H)%nat → is_cancelled H' h).
Proof.
  cbv zeta.
  apply (map_fold_weak_ind (λ H' T,
    length H' = length H ∧
    (∀ h, is_cancelled H h → is_cancelled H' h) ∧
    (∀ i h, T !! i = Some h → (h < length H)%nat → is_cancelled H' h))).
  - split; [done|]. split; [done|]. intros i h. by rewrite lookup_empty.
  - intros i x m r Hi (L & K & C). split; [by rewrite length_cancel|].
    split; [intros h Hh; by apply cancel_keeps, K|].
    intros j h. destruct (decide (i = j)) as [->|N].
    + rewrite lookup_insert_eq. intros [= ->] Lh.
      assert (Lr : (h < length r)%nat) by lia.
      destruct (lookup_lt_is_Some_2 _ _ Lr) as [t Ht].
      unfold is_cancelled. by rewrite (cancel_cancels _ _ _ Ht).
    + rewrite lookup_insert_ne by done. intros Hj Lh.
      by eapply cancel_keeps, C.
Qed.

Lemma session_end_all_cancelled c :
  heap_ok (timers c) (timer_heap c) →
  all_cancelled (timer_heap (session_end c)).
Proof.
  intros OK h t Ht.
  change (timer_heap (session_end c))
    with (map_fold (λ _ h heap, cancel h heap) (timer_heap c) (timers c)) in Ht.
  pose proof (cancel_all_spec (timers c) (timer_heap c)) as (L & K & C).
  cbv zeta in *.
  assert (Lh : (h < length (timer_heap c))%nat).
  { rewrite <- L. by eapply lookup_lt_Some. }
  destruct (lookup_lt_is_Some_2 _ _ Lh) as [t0 Ht0].
  assert (is_cancelled
            (map_fold (λ _ h heap, cancel h heap) (timer_heap c) (timers c)) h)
    as X.
  { destruct (timer_cancelled t0) eqn:E.
    - apply K. unfold is_cancelled. by rewrite Ht0, <- E.
    - destruct OK as [_ B]. eapply C; [by eapply B|done]. }
  unfold is_cancelled in X. rewrite Ht in X. by injection X.
Qed.



Lemma step_assigned_step c c' : step_assigned c c' → step c c'.
Proof. destruct 1; by constructor. Qed.

Lemma reachable_assigned_reachable ws p c :
  reachable_assigned ws p c → reachable ws p c.
Proof.
  unfold reachable_assigned, reachable. intros R.
  eapply rtc_subrel; [|exact R]. apply step_assigned_step.
Qed.

(** ** The registry when the threads interleave *)

Lemma clear_timers_all_cancelled c :
  heap_ok (timers c) (timer_heap c) →
  all_cancelled (timer_heap (clear_timers c)).
Proof.
  intros OK. apply (session_end_all_cancelled c) in OK. exact OK.
Qed.

Lemma thread_step_heap_ok c c' :
  thread_step c c' →
  heap_ok (timers c) (timer_heap c) → heap_ok (timers c') (timer_heap c').
Proof.
  destruct 1 as [c seq|c seq|c|c c' T H]; intros OK.
  - by apply start_timer_heap_ok.
  - rewrite stop_timer_timers, stop_timer_heap. by apply heap_ok_stop.
  - change (timers (clear_timers c)) with (∅ : gmap Z nat). split.
    + intros i h. by rewrite lookup_empty.
    + intros h t Ht Live.
      pose proof (clear_timers_all_cancelled c OK h t Ht). congruence.
  - by rewrite T, H.
Qed.

Lemma thread_reachable_heap_ok ws p c :
  thread_reachable ws p c → heap_ok (timers c) (timer_heap c).
Proof.
  unfold thread_reachable. intros R.
  apply (rtc_ind_r (R := thread_step)
           (λ c, heap_ok (timers c) (timer_heap c)) (init ws p)); [| |exact R].
  - split.
    + intros i h. simpl. by rewrite lookup_empty.
    + intros h t. simpl. by rewrite lookup_nil.
  - intros y z _ S H. by eapply thread_step_heap_ok.
Qed.

(** Every method is a sequence of such moves. *)

Lemma ack_loop_threads l c : rtc thread_step c (foldl ack_one c l).
Proof.
  revert c. induction l as [|i l IH]; intros c; simpl; [apply rtc_refl|].
  etrans; [|apply IH]. unfold ack_one.
  eapply rtc_l; [apply (thread_stop_timer c i)|].
  destruct (window (stop_timer i c) !! i); [|apply rtc_refl].
  apply rtc_once. by apply thread_other.
Qed.

Lemma on_ack_threads k c : rtc thread_step c (on_ack k c).
Proof.
  destruct (Z_lt_le_dec k (base c)) as [H|H].
  - rewrite on_ack_stale by done. apply rtc_once. by apply thread_other.
  - rewrite on_ack_fresh by done.
    eapply rtc_l; [apply (thread_other c
      (log_event "ACK_RECV" (Some k)
         (set_stats (incr_acks_received (stats c)) c))); reflexivity|].
    etrans; [apply ack_loop_threads|].
    apply rtc_once. by apply thread_other.
Qed.

Lemma retransmit_loop_threads atts l c :
  rtc thread_step c (foldl (retransmit_one atts) c l).
Proof.
  revert c. induction l as [|i l IH]; intros c; simpl; [apply rtc_refl|].
  etrans; [|apply IH]. unfold retransmit_one.
  destruct (window c !! i) as [d|]; [|apply rtc_refl].
  pose proof (send_packet_frame i d true (atts i) c) as F. cbv zeta in F.
  destruct F as (_ & _ & _ & _ & Ft & Fh & _).
  eapply rtc_l; [apply (thread_other c (send_packet i d true (atts i) c));
                 done|].
  apply rtc_once. apply thread_start_timer.
Qed.

Lemma step_threads c c' : step c c' → rtc thread_step c c'.
Proof.
  destruct 1 as [c|c data a _|c r|c seq atts|c _|c].
  - apply rtc_once. by apply thread_other.
  - unfold window_add.
    set (x := send_packet (next_seq_num c) data false a
                (set_window (<[next_seq_num c:=data]> (window c)) c)).
    pose proof (send_packet_frame (next_seq_num c) data false a
                  (set_window (<[next_seq_num c:=data]> (window c)) c)) as F.
    cbv zeta in F. destruct F as (_ & _ & _ & _ & Ft & Fh & _).
    eapply rtc_l; [apply (thread_other c x); done|].
    eapply rtc_l; [apply (thread_start_timer x (next_seq_num c))|].
    apply rtc_once. by apply thread_other.
  - unfold receive_acks_iter.
    destruct (running c), r as [|k| |v]; try apply rtc_refl.
    + apply on_ack_threads.
    + apply rtc_once. by apply thread_other.
    + destruct (on_ack_value_cases v c) as [(k & _ & ->)|(_ & evs & ->)];
        [apply on_ack_threads|].
      apply rtc_once. by apply thread_other.
  - destruct (running c) eqn:R.
    + rewrite timeout_handler_running by done.
      eapply rtc_l; [apply (thread_other c (log_event "TIMEOUT" (Some seq) c));
                     reflexivity|].
      apply retransmit_loop_threads.
    + rewrite timeout_handler_stopped by done. apply rtc_refl.
  - change (session_end c)
      with (log_event "SESSION_END" None (clear_timers (set_running false c))).
    eapply rtc_l; [apply (thread_other c (set_running false c)); reflexivity|].
    eapply rtc_l; [apply thread_clear_timers|].
    apply rtc_once. by apply thread_other.
  - apply rtc_once. by apply thread_other.
Qed.

Lemma reachable_thread_reachable ws p c :
  reachable ws p c → thread_reachable ws p c.
Proof.
  unfold reachable, thread_reachable.
  induction 1 as [c|c1 c2 c3 S _ IH]; [apply rtc_refl|].
  etrans; [by apply step_threads|exact IH].
Qed.

Lemma late_timer_thread_reachable : thread_reachable 3 0 late_timer.
Proof.
  unfold thread_reachable, late_timer. eapply rtc_r.
  - apply (reachable_thread_reachable 3 0 one_acked one_acked_reachable).
  - apply thread_start_timer.
Defined.

(** Extra X1.  However the main thread, the ACK thread and the timer threads
    interleave, the registry and the Timer objects agree: each registered
    Timer has not been cancelled and was created for the sequence number it
    is registered under; a Timer that has not been cancelled is the
    registered one of its sequence number, so no sequence number has two of
    them and the block that ends [send_data] cancels every one that is left;
    and no two sequence numbers share a Timer.  Every run of whole methods is
    such an interleaving. *)
Theorem timers_registered (ws : Z) (p : Q) (c : client) :
  thread_reachable ws p c →
  (∀ i h, timers c !! i = Some h → is_armed (timer_heap c) h i) ∧
  (∀ h t, timer_heap c !! h = Some t → timer_cancelled t = false →
          timers c !! timer_arg t = Some h) ∧
  (∀ h h' t t', timer_heap c !! h = Some t → timer_heap c !! h' = Some t' →
                timer_cancelled t = false → timer_cancelled t' = false →
                timer_arg t = timer_arg t' → h = h') ∧
  (∀ i j h, timers c !! i = Some h → timers c !! j = Some h → i = j) ∧
  (timers (clear_timers c) = ∅ ∧ all_cancelled (timer_heap (clear_timers c))) ∧
  (∀ c', step c c' → thread_reachable ws p c').
Proof.
  intros R. pose proof (thread_reachable_heap_ok ws p c R) as OK.
  split; [apply OK|]. split; [apply OK|]. split; [|split; [|split]].
  - intros h h' t t' Ht Ht' L L' E.
    apply (proj2 OK) in Ht; [|done]. apply (proj2 OK) in Ht'; [|done].
    rewrite E in Ht. congruence.
  - intros i j h. by apply (heap_ok_inj (timers c) (timer_heap c)).
  - split; [reflexivity|by apply clear_timers_all_cancelled].
  - intros c' S. unfold thread_reachable in *.
    etrans; [exact R|by apply step_threads].
Qed.

Lemma timers_registered_witness :
  (window late_timer !! 0 = None ∧ base late_timer = 1) ∧
  is_armed (timer_heap late_timer) 2 0 ∧
  (∀ h t, timer_heap late_timer !! h = Some t → timer_cancelled t = false →
          timers late_timer !! timer_arg t = Some h).
Proof.
  destruct (timers_registered 3 0%Q late_timer late_timer_thread_reachable)
    as (A & L & _).
  split; [split; reflexivity|]. split; [apply A; reflexivity|exact L].
Defined.



(** ** Monotone quantities *)

Lemma advances_refl c : advances c c.
Proof. unfold advances. repeat split; lia. Qed.

Lemma advances_trans c1 c2 c3 : advances c1 c2 → advances c2 c3 → advances c1 c3.
Proof.
  unfold advances.
  intros (-> & -> & ?) (-> & -> & ?). repeat split; lia.
Qed.

Lemma send_packet_advances seq data retx a c :
  advances c (send_packet seq data retx a c).
Proof.
  pose proof (send_packet_frame seq data retx a c) as F.
  pose proof (send_packet_stats seq data retx a c) as S.
  unfold advances.
  cbv zeta in *. destruct F as (-> & -> & -> & _ & _ & _ & -> & _).
  destruct S as (-> & -> & -> & -> & _).
  destruct (delivered _ a), retx, (loss_trial _ a); simpl; repeat split; lia.
Qed.

Lemma start_timer_advances i c : advances c (start_timer i c).
Proof. unfold advances. simpl. repeat split; lia. Qed.

Lemma retransmit_one_advances atts c i : advances c (retransmit_one atts c i).
Proof.
  unfold retransmit_one. destruct (window c !! i); [|apply advances_refl].
  eapply advances_trans; [apply send_packet_advances|apply start_timer_advances].
Qed.

Lemma retransmit_loop_advances atts l c :
  advances c (foldl (retransmit_one atts) c l).
Proof.
  revert c. induction l as [|a l IH]; intros c; simpl; [apply advances_refl|].
  eapply advances_trans; [apply retransmit_one_advances|apply IH].
Qed.

Lemma timeout_handler_advances seq atts c :
  advances c (timeout_handler seq atts c).
Proof.
  unfold timeout_handler. destruct (running c); simpl; [|apply advances_refl].
  eapply advances_trans; [|apply retransmit_loop_advances].
  unfold advances. simpl. repeat split; lia.
Qed.

Lemma on_ack_advances k c : advances c (on_ack k c).
Proof.
  pose proof (on_ack_frame c k) as (W & N & P & _ & S & _).
  unfold advances. rewrite W, N, P, S, on_ack_base.
  destruct (base c <=? k) eqn:E; [apply Z.leb_le in E|];
    simpl; repeat split; lia.
Qed.

Lemma window_add_advances data a c : advances c (window_add data a c).
Proof.
  unfold window_add.
  set (c1 := set_window _ c).
  eapply advances_trans; [|eapply advances_trans;
    [apply (send_packet_advances (next_seq_num c) data false a c1)|]].
  - unfold advances. simpl. repeat split; lia.
  - unfold advances. simpl. repeat split; lia.
Qed.

Lemma step_advances c c' : step c c' → advances c c'.
Proof.
  destruct 1 as [c|c data a _|c r|c seq atts|c _|c].
  - unfold advances. simpl. repeat split; lia.
  - apply window_add_advances.
  - unfold receive_acks_iter. destruct (running c), r as [|k| |v];
      try apply advances_refl; [apply on_ack_advances| |].
    + unfold advances. simpl. repeat split; lia.
    + destruct (on_ack_value_cases v c) as [(k & _ & ->)|(_ & evs & ->)];
        [apply on_ack_advances|].
      unfold advances. simpl. repeat split; lia.
  - apply timeout_handler_advances.
  - unfold advances. simpl. repeat split; lia.
  - unfold advances. simpl. repeat split; lia.
Qed.

Lemma run_advances c c' : rtc step c c' → advances c c'.
Proof.
  induction 1 as [c|c1 c2 c3 S _ IH]; [apply advances_refl|].
  eapply advances_trans; [by apply step_advances|exact IH].
Qed.

(** Extra X4.  Along every run of the sender, from any state: the window
    size and the loss probability never change, and [base], [next_seq_num]
    and the four counters the sender maintains never decrease. *)
Theorem sender_monotone (c c' : client) :
  rtc step c c' →
  window_size c' = window_size c ∧
  loss_probability c' = loss_probability c ∧
  base c ≤ base c' ∧
  next_seq_num c ≤ next_seq_num c' ∧
  packets_sent (stats c) ≤ packets_sent (stats c') ∧
  retransmissions (stats c) ≤ retransmissions (stats c') ∧
  acks_received (stats c) ≤ acks_received (stats c') ∧
  packets_lost (stats c) ≤ packets_lost (stats c').
Proof. intros R. by apply run_advances. Qed.

Lemma sender_monotone_witness :
  base two_in_flight ≤ base one_acked ∧
  acks_received (stats two_in_flight) ≤ acks_received (stats one_acked).
Proof.
  assert (R : rtc step two_in_flight one_acked).
  { apply rtc_once. apply (step_ack two_in_flight (AckDatagram 0)). }
  destruct (sender_monotone two_in_flight one_acked R)
    as (_ & _ & B & _ & _ & _ & A & _).
  split; [exact B|exact A].
Defined.

(** ** A sender that is configured not to lose *)

Lemma loss_trial_never p a : (p <= 0)%Q → loss_trial p a = false.
Proof.
  intros H. unfold loss_trial, Qlt_bool.
  by rewrite (proj2 (Qle_bool_iff _ _) H).
Qed.

Lemma send_packet_never_lost seq data retx a c :
  (loss_probability c <= 0)%Q →
  packets_lost (stats (send_packet seq data retx a c)) = packets_lost (stats c) ∧
  sock (send_packet seq data retx a c) =
    sock c ++ (if sendto_ok a then [Packet seq data] else []).
Proof.
  intros H.
  pose proof (send_packet_stats seq data retx a c) as (_ & _ & L & _).
  rewrite send_packet_sock. unfold delivered. cbv zeta in L.
  rewrite L, loss_trial_never by done. split; [lia|done].
Qed.

Lemma retransmit_one_never_lost atts c i :
  (loss_probability c <= 0)%Q →
  packets_lost (stats (retransmit_one atts c i)) = packets_lost (stats c).
Proof.
  intros H. unfold retransmit_one. destruct (window c !! i); [|done].
  change (stats (start_timer ?i ?x)) with (stats x).
  by rewrite (proj1 (send_packet_never_lost _ _ _ _ _ H)).
Qed.

Lemma retransmit_loop_never_lost atts l c :
  (loss_probability c <= 0)%Q →
  packets_lost (stats (foldl (retransmit_one atts) c l)) = packets_lost (stats c).
Proof.
  revert c. induction l as [|a l IH]; intros c H; simpl; [done|].
  rewrite IH, retransmit_one_never_lost; [done|done|].
  pose proof (retransmit_one_frame atts c a) as F. cbv zeta in F.
  destruct F as (_ & _ & _ & _ & -> & _). done.
Qed.

Lemma step_never_lost c c' :
  step c c' → (loss_probability c <= 0)%Q →
  packets_lost (stats c') = packets_lost (stats c).
Proof.
  destruct 1 as [c|c data a _|c r|c seq atts|c _|c]; intros H; try done.
  - unfold window_add.
    change (stats (set_next_seq_num ?v (log_event ?e ?s (start_timer ?i ?x))))
      with (stats x).
    exact (proj1 (send_packet_never_lost (next_seq_num c) data false a
                    (set_window (<[next_seq_num c:=data]> (window c)) c) H)).
  - assert (K : ∀ k, packets_lost (stats (on_ack k c)) = packets_lost (stats c)).
    { intros k. pose proof (on_ack_frame c k) as (_ & _ & _ & _ & -> & _).
      done. }
    unfold receive_acks_iter. destruct (running c), r as [|k| |v]; try done.
    destruct (on_ack_value_cases v c) as [(k & _ & ->)|(_ & evs & ->)]; done.
  - unfold timeout_handler. destruct (running c); simpl; [|done].
    exact (retransmit_loop_never_lost atts _
             (log_event "TIMEOUT" (Some seq) c) H).
Qed.

(** Extra X5.  A sender built with a loss probability of [0] (or below)
    never drops a packet on purpose: in every state it reaches,
    [packets_lost] is [0]. *)
Theorem lossless_sender (ws : Z) (p : Q) (c : client) :
  (p <= 0)%Q →
  reachable ws p c →
  packets_lost (stats c) = 0.
Proof.
  intros H R.
  cut (loss_probability c = p ∧ packets_lost (stats c) = 0); [tauto|].
  unfold reachable in R.
  apply (rtc_ind_r (R := step)
           (λ c, loss_probability c = p ∧ packets_lost (stats c) = 0)
           (init ws p)); [done| |exact R].
  intros y z _ S (E & L). split.
  - apply step_advances in S as (_ & -> & _). done.
  - rewrite (step_never_lost _ _ S); [done|by rewrite E].
Qed.

Lemma lossless_sender_witness : packets_lost (stats two_in_flight) = 0.
Proof.
  apply (lossless_sender 3 0%Q two_in_flight); [|exact two_in_flight_reachable].
  vm_compute. discriminate.
Defined.

(** ** Filling the window *)

Lemma fill_window_spec messages atts c :
  let rest := (fill_window messages atts c).1 in
  let c' := (fill_window messages atts c).2 in
  ∃ taken,
    messages = taken ++ rest ∧
    next_seq_num c' = next_seq_num c + Z.of_nat (length taken) ∧
    base c' = base c ∧
    (rest = [] ∨ window_has_room c' = false) ∧
    (∀ j, j < next_seq_num c → window c' !! j = window c !! j) ∧
    (∀ i d, taken !! i = Some d →
            window c' !! (next_seq_num c + Z.of_nat i) = Some d) ∧
    (window_ok c → window_ok c').
Proof.
  revert atts c. induction messages as [|data rest0 IH]; intros atts c; simpl.
  - exists []. simpl. split; [done|]. split; [lia|]. split; [done|].
    split; [by left|]. split; [done|]. split; [done|done].
  - destruct (window_has_room c) eqn:R; simpl.
    + destruct (IH (tail atts) (window_add data (hd clean atts) c))
        as (taken & E & N & B & F & O & T & K).
      pose proof (window_add_frame data (hd clean atts) c)
        as (_ & Fb & Fn & Fw & _).
      exists (data :: taken). simpl. rewrite <- E.
      split; [done|]. split; [rewrite N, Fn; lia|].
      split; [by rewrite B, Fb|]. split; [done|]. split; [|split].
      * intros j J. rewrite O by lia. rewrite Fw.
        by rewrite lookup_insert_ne by lia.
      * intros [|i] d Hd; simpl in Hd.
        -- injection Hd as <-. rewrite Z.add_0_r, O by lia.
           by rewrite Fw, lookup_insert_eq.
        -- rewrite <- (T i d Hd), Fn. f_equal. lia.
      * intros W. by apply K, window_add_ok.
    + exists []. simpl. split; [done|]. split; [lia|]. split; [done|].
      split; [by right|]. split; [done|]. split; [done|done].
Qed.

(** Extra X6.  The inner loop of [send_data] takes messages from the front,
    in order, and gives them consecutive sequence numbers starting at
    [next_seq_num]; it stops only when the messages are used up or the window
    has no room; it leaves [base] and the older window entries alone, and
    keeps the window within its bound. *)
Theorem fill_window_takes_front (messages : list string) (atts : list attempt)
    (c : client) :
  window_ok c →
  let rest := (fill_window messages atts c).1 in
  let c' := (fill_window messages atts c).2 in
  ∃ taken,
    messages = taken ++ rest ∧
    next_seq_num c' = next_seq_num c + Z.of_nat (length taken) ∧
    base c' = base c ∧
    (rest = [] ∨ Z.of_nat (size (window c')) = window_size c') ∧
    (∀ j, j < next_seq_num c → window c' !! j = window c !! j) ∧
    (∀ i d, taken !! i = Some d →
            window c' !! (next_seq_num c + Z.of_nat i) = Some d) ∧
    window_ok c'.
Proof.
  intros W. cbv zeta.
  destruct (fill_window_spec messages atts c)
    as (taken & E & N & B & F & O & T & K).
  exists taken. repeat (split; [done|]). split; [|split; [done|split; [done|]]].
  - destruct F as [F|F]; [by left|right].
    specialize (K W). destruct K as (_ & Kb & Ks & _).
    unfold window_has_room in F. apply Z.ltb_ge in F. lia.
  - by apply K.
Qed.

Lemma fill_window_takes_front_witness :
  ∃ taken,
    ["a"; "b"; "c"; "d"]%string = taken ++ ["d"%string] ∧
    next_seq_num
      (fill_window ["a"; "b"; "c"; "d"]%string [] (session_start (init 3 0))).2
    = 0 + Z.of_nat (length taken).
Proof.
  assert (W : window_ok (session_start (init 3 0))).
  { unfold window_ok. simpl. split; [lia|]. split; [lia|]. split; [done|].
    intros i. rewrite lookup_empty. split; [intros [? ?]; done|lia]. }
  destruct (fill_window_takes_front ["a"; "b"; "c"; "d"]%string []
              (session_start (init 3 0)) W) as (taken & E & N & _).
  exists taken. split; [exact E|exact N].
Defined.

(** ** A batch of acknowledgments *)

Lemma base_after_max a b ks :
  base_after (Z.max a b) ks = Z.max a (base_after b ks).
Proof. induction ks as [|k ks IH]; simpl; [done|]. rewrite IH. lia. Qed.

Lemma base_after_ge b ks : b ≤ base_after b ks.
Proof. induction ks as [|k ks IH]; simpl; lia. Qed.

Lemma base_after_perm b ks ks' : ks ≡ₚ ks' → base_after b ks = base_after b ks'.
Proof.
  induction 1 as [|k ks ks' _ IH|k k' ks|ks1 ks2 ks3 _ IH1 _ IH2]; simpl;
    [done|by rewrite IH|lia|congruence].
Qed.

Lemma receive_acks_running ks c :
  running c = true →
  receive_acks (AckDatagram <$> ks) c = foldl (λ c k, on_ack k c) c ks.
Proof.
  unfold receive_acks. revert c.
  induction ks as [|k ks IH]; intros c R; simpl; [done|].
  unfold receive_acks_iter at 2. rewrite R. apply IH.
  pose proof (on_ack_frame c k) as (_ & _ & _ & -> & _). done.
Qed.

Lemma ack_batch_spec ks c :
  let c' := foldl (λ c k, on_ack k c) c ks in
  base c' = base_after (base c) ks ∧
  (∀ i, window c' !! i =
        if decide (base c ≤ i < base c') then None else window c !! i) ∧
  (∀ i, timers c' !! i =
        if decide (base c ≤ i < base c') then None else timers c !! i) ∧
  next_seq_num c' = next_seq_num c ∧ sock c' = sock c ∧
  stats c' = Nat.iter (length ks) incr_acks_received (stats c).
Proof.
  revert c. induction ks as [|k ks IH]; intros c; simpl.
  - split; [done|]. split; [|split; [|done]];
      intros i; by rewrite decide_False by lia.
  - destruct (IH (on_ack k c)) as (B & W & T & N & S & St). cbv zeta in *.
    pose proof (on_ack_frame c k) as (_ & Fn & _ & _ & Fs & Fk).
    pose proof (on_ack_base c k) as Fb.
    assert (Bk : base (on_ack k c) = Z.max (k + 1) (base c)).
    { rewrite Fb. destruct (Z.leb_spec (base c) k); lia. }
    pose proof (base_after_ge (base (on_ack k c)) ks) as G.
    split; [by rewrite B, Bk, base_after_max|].
    split; [|split; [|split; [congruence|split; [congruence|]]]].
    + intros i. rewrite W, on_ack_window.
      repeat case_decide; try done; lia.
    + intros i. rewrite T, on_ack_timers.
      repeat case_decide; try done; lia.
    + rewrite St, Fs. clear. induction (length ks) as [|n IHn]; simpl; [done|].
      by rewrite IHn.
Qed.

(** Extra X7.  Acknowledgments are cumulative whatever order they arrive in:
    after a running sender has processed a batch of ACKs, [base] is the
    larger of the old [base] and the highest acknowledged number plus one,
    the window and the timer registry have lost exactly the entries between
    the old and the new [base], and [acks_received] has grown by the size of
    the batch; so two batches that are permutations of each other leave the
    same [base], window, registry and counters. *)
Theorem cumulative_acks_any_order (c : client) (ks ks' : list Z) :
  running c = true →
  ks ≡ₚ ks' →
  let c1 := receive_acks (AckDatagram <$> ks) c in
  let c2 := receive_acks (AckDatagram <$> ks') c in
  base c1 = base_after (base c) ks ∧
  (∀ i, window c1 !! i =
        if decide (base c ≤ i < base c1) then None else window c !! i) ∧
  (∀ i, timers c1 !! i =
        if decide (base c ≤ i < base c1) then None else timers c !! i) ∧
  acks_received (stats c1) = acks_received (stats c) + Z.of_nat (length ks) ∧
  base c2 = base c1 ∧ window c2 = window c1 ∧ timers c2 = timers c1 ∧
  next_seq_num c2 = next_seq_num c1 ∧ stats c2 = stats c1.
Proof.
  intros R P. cbv zeta. rewrite !receive_acks_running by done.
  destruct (ack_batch_spec ks c) as (B1 & W1 & T1 & N1 & _ & S1).
  destruct (ack_batch_spec ks' c) as (B2 & W2 & T2 & N2 & _ & S2).
  cbv zeta in *.
  assert (B : base (foldl (λ c k, on_ack k c) c ks')
              = base (foldl (λ c k, on_ack k c) c ks)).
  { rewrite B1, B2. symmetry. by apply base_after_perm. }
  split; [done|]. split; [done|]. split; [done|]. split.
  - rewrite S1. clear. induction (length ks) as [|n IHn]; [simpl; lia|].
    rewrite Nat2Z.inj_succ.
    change (Nat.iter (S n) incr_acks_received (stats c))
      with (incr_acks_received (Nat.iter n incr_acks_received (stats c))).
    unfold incr_acks_received at 1. cbn [acks_received]. lia.
  - split; [done|]. split; [|split; [|split]].
    + apply map_eq. intros i. by rewrite W1, W2, B.
    + apply map_eq. intros i. by rewrite T1, T2, B.
    + congruence.
    + rewrite S1, S2. by rewrite (Permutation_length P).
Qed.

Lemma cumulative_acks_any_order_witness :
  base (receive_acks (AckDatagram <$> [1; 0]) two_in_flight) = 2 ∧
  window (receive_acks (AckDatagram <$> [0; 1]) two_in_flight) =
  window (receive_acks (AckDatagram <$> [1; 0]) two_in_flight).
Proof.
  assert (P : [1; 0] ≡ₚ [0; 1]) by apply perm_swap.
  destruct (cumulative_acks_any_order two_in_flight [1; 0] [0; 1] eq_refl P)
    as (B & _ & _ & _ & _ & W & _).
  split; [exact B|exact W].
Defined.

End sender_runs.

(** * Further properties of the receiver: runs *)
Section receiver_runs.
Import GBNServer.

Ltac plumbing :=
  unfold log_event, set_expected_seq_num, set_last_ack_sent, set_stats,
    set_log_entries, set_received_messages, set_sock,
    incr_packets_received, incr_packets_in_order, incr_packets_out_of_order,
    incr_acks_sent, incr_acks_lost in *;
  simpl in *.

Lemma send_ack_stats k addr a s :
  let t := stats s in
  let t' := stats (send_ack k addr a s) in
  acks_sent t' = acks_sent t + (if delivered (loss_probability s) a then 1 else 0) ∧
  acks_lost t' = acks_lost t + (if loss_trial (loss_probability s) a then 1 else 0) ∧
  packets_received t' = packets_received t ∧
  packets_in_order t' = packets_in_order t ∧
  packets_out_of_order t' = packets_out_of_order t.
Proof.
  unfold send_ack, simulate_ack_loss, delivered.
  destruct (loss_trial _ a), (sendto_ok a); plumbing; lia.
Qed.

Lemma record_accept_stats v w addr a s :
  py_eq v (expected_seq_num s) = true →
  let t := stats s in
  let t' := stats (after (record v w) addr a s) in
  packets_received t' = packets_received t + 1 ∧
  packets_in_order t' = packets_in_order t + 1 ∧
  packets_out_of_order t' = packets_out_of_order t ∧
  acks_sent t' = acks_sent t + (if delivered (loss_probability s) a then 1 else 0) ∧
  acks_lost t' = acks_lost t + (if loss_trial (loss_probability s) a then 1 else 0).
Proof.
  intros Q. cbv zeta. rewrite (record_accept _ _ _ _ _ Q).
  match goal with |- context [send_ack ?k ?ad ?at' ?x] =>
    pose proof (send_ack_stats k ad at' x) as (-> & -> & -> & -> & ->) end.
  plumbing. repeat split.
Qed.

Lemma record_reject_stats v w addr a s before :
  py_eq v (expected_seq_num s) = false →
  py_lt v (expected_seq_num s) = Some before →
  let t := stats s in
  let t' := stats (after (record v w) addr a s) in
  packets_received t' = packets_received t + 1 ∧
  packets_in_order t' = packets_in_order t ∧
  packets_out_of_order t' = packets_out_of_order t + 1 ∧
  acks_sent t' =
    acks_sent t +
    (if decide (0 ≤ last_ack_sent s)
     then if delivered (loss_probability s) a then 1 else 0 else 0) ∧
  acks_lost t' =
    acks_lost t +
    (if decide (0 ≤ last_ack_sent s)
     then if loss_trial (loss_probability s) a then 1 else 0 else 0).
Proof.
  intros Q L. cbv zeta. rewrite (record_reject _ _ _ _ _ _ Q L). cbv zeta.
  destruct (Z.leb_spec 0 (last_ack_sent s)) as [P|P].
  - rewrite !decide_True by done.
    change (stats (log_event ?e ?q ?x)) with (stats x).
    match goal with |- context [send_ack ?k ?ad ?at' ?x] =>
      pose proof (send_ack_stats k ad at' x) as (-> & -> & -> & -> & ->) end.
    plumbing. repeat split.
  - rewrite !decide_False by lia. plumbing. repeat split; lia.
Qed.

Lemma after_accept_stats data addr a s :
  let t := stats s in
  let t' := stats (after (well_formed (expected_seq_num s) data) addr a s) in
  packets_received t' = packets_received t + 1 ∧
  packets_in_order t' = packets_in_order t + 1 ∧
  packets_out_of_order t' = packets_out_of_order t ∧
  acks_sent t' = acks_sent t + (if delivered (loss_probability s) a then 1 else 0) ∧
  acks_lost t' = acks_lost t + (if loss_trial (loss_probability s) a then 1 else 0).
Proof.
  apply (record_accept_stats (JInt (expected_seq_num s)) data).
  apply Z.eqb_refl.
Qed.

Lemma after_log_prefix d addr a s :
  log_entries s `prefix_of` log_entries (after d addr a s).
Proof.
  destruct (datagram_cases d s)
    as [M|[(v & w & -> & U)|[(v & w & -> & Q)|(v & w & b & -> & Q & B)]]].
  - rewrite after_malformed by done. by eexists.
  - rewrite after_unnumbered by done. plumbing.
    rewrite <- !app_assoc. by eexists.
  - rewrite (record_accept _ _ _ _ _ Q), send_ack_log. plumbing.
    rewrite <- !app_assoc. by eexists.
  - rewrite (record_reject _ _ _ _ _ _ Q B). cbv zeta.
    destruct (0 <=? last_ack_sent s).
    + change (log_entries (log_event ?e ?q ?x))
        with (log_entries x ++ [LogEntry e q]).
      rewrite send_ack_log.
      change (log_entries (log_event ?e ?q ?x))
        with (log_entries x ++ [LogEntry e q]).
      change (log_entries (set_stats ?t ?x)) with (log_entries x).
      change (log_entries (log_event ?e ?q ?x))
        with (log_entries x ++ [LogEntry e q]).
      rewrite <- !app_assoc. by eexists.
    + plumbing. rewrite <- !app_assoc. by eexists.
Qed.

Lemma after_grows d addr a s : grows s (after d addr a s).
Proof.
  unfold grows. pose proof (after_log_prefix d addr a s) as LP.
  destruct (datagram_cases d s)
    as [M|[(v & w & -> & U)|[(v & w & -> & Q)|(v & w & b & -> & Q & B)]]].
  - rewrite after_malformed in * by done. simpl.
    repeat split; try done; lia.
  - rewrite after_unnumbered in * by done. simpl.
    repeat split; try done; lia.
  - pose proof (record_accept_effect v w addr a s Q) as (-> & -> & -> & _ & ->).
    pose proof (record_accept_stats v w addr a s Q) as (-> & _ & _ & -> & _).
    repeat split; try done; try lia; try (by eexists).
    destruct (delivered _ a); lia.
  - pose proof (record_reject_effect v w addr a s b Q B)
      as (-> & -> & -> & _ & ->).
    pose proof (record_reject_stats v w addr a s b Q B)
      as (-> & _ & _ & -> & _).
    repeat split; try done; try lia; try (by eexists).
    case_decide; [destruct (delivered _ a)|]; lia.
Qed.

Lemma grows_refl s : grows s s.
Proof. unfold grows. repeat split; try done; lia. Qed.

Lemma grows_trans s1 s2 s3 : grows s1 s2 → grows s2 s3 → grows s1 s3.
Proof.
  unfold grows. intros (-> & ? & ? & ? & ? & ? & ?) (-> & ? & ? & ? & ? & ? & ?).
  repeat split; try lia; try done; by etrans.
Qed.










(** Extra X11.  Along every run of the receiver, from any state: the cursor
    [expected_seq_num] never goes back, the message log, the ACKs on the
    socket and the event log only grow at the end, the loss probability is
    kept, and the counters of packets received and ACKs sent never
    decrease. *)
Theorem receiver_append_only (s s' : server) :
  rtc step s s' →
  loss_probability s' = loss_probability s ∧
  expected_seq_num s ≤ expected_seq_num s' ∧
  received_messages s `prefix_of` received_messages s' ∧
  sock s `prefix_of` sock s' ∧
  log_entries s `prefix_of` log_entries s' ∧
  packets_received (stats s) ≤ packets_received (stats s') ∧
  acks_sent (stats s) ≤ acks_sent (stats s').
Proof.
  intros R. change (grows s s').
  induction R as [s|s1 s2 s3 [] _ IH]; [apply grows_refl|].
  eapply grows_trans; [apply after_grows|exact IH].
Qed.

Lemma receiver_append_only_witness :
  received_messages (init 0) `prefix_of` received_messages two_accepted ∧
  expected_seq_num (init 0) ≤ expected_seq_num two_accepted.
Proof.
  destruct (receiver_append_only (init 0) two_accepted two_accepted_reachable)
    as (_ & E & P & _).
  split; [exact P|exact E].
Defined.


End receiver_runs.

(** * Sender and receiver together *)
Section session.
Import GBNClient GBNSystem.

Lemma window_add_sock data a c :
  sock (window_add data a c) =
  sock c ++
  (if delivered (loss_probability c) a
   then [Packet (next_seq_num c) data] else []).
Proof.
  unfold window_add.
  change (sock (set_next_seq_num ?v (log_event ?e ?s (start_timer ?i ?x))))
    with (sock x).
  by rewrite send_packet_sock.
Qed.

Lemma timeout_handler_sock seq atts c pkt :
  pkt ∈ sock (timeout_handler seq atts c) →
  pkt ∈ sock c ∨ window c !! pkt_seq_num pkt = Some (pkt_data pkt).
Proof.
  destruct (running c) eqn:R.
  - rewrite timeout_handler_running by done. rewrite retransmit_loop_sock.
    intros [H|H]%elem_of_app; [by left|right].
    apply list_elem_of_omap in H as (i & _ & H).
    unfold retx_packet in H.
    change (window (log_event ?e ?s c)) with (window c) in H.
    destruct (delivered _ _); [|done].
    destruct (window c !! i) as [d|] eqn:E; [|done].
    injection H as <-. exact E.
  - rewrite timeout_handler_stopped by done. by left.
Qed.

Lemma accepted_snoc messages n (d : string) :
  0 ≤ n → messages !! Z.to_nat n = Some d →
  accepted messages (n + 1) = accepted messages n ++ [GBNServer.Message n d].
Proof.
  intros P E. unfold accepted.
  rewrite Z2Nat.inj_add, Nat.add_1_r by lia.
  rewrite (take_S_r _ _ _ E), imap_app. simpl. f_equal.
  rewrite length_take_le; [|apply lookup_lt_Some in E; lia].
  by rewrite Nat.add_0_r, Z2Nat.id.
Qed.

(** The receiver's side of the invariant, for one datagram of the sender. *)
Lemma deliver_inv messages c n s pkt addr a :
  sys_inv messages (System c n s) →
  pkt ∈ sock c →
  sys_inv messages (System c n (GBNServer.after (on_wire pkt) addr a s)).
Proof.
  intros (N & L & W & B & Wm & Sm & Be & En & Rm & La & Ak) I.
  cbn [sender receiver message_index] in *.
  destruct (Sm pkt I) as (Pr & Pm).
  unfold sys_inv. cbn [sender receiver message_index]. unfold on_wire.
  destruct (decide (pkt_seq_num pkt = GBNServer.expected_seq_num s)) as [E|E].
  - rewrite E in *.
    pose proof (after_accept (pkt_data pkt) addr a s) as (-> & -> & -> & -> & _).
    repeat (split; [done|]).
    split; [lia|]. split; [lia|]. split.
    { rewrite Rm. symmetry. apply accepted_snoc; [lia|done]. }
    split; [destruct (delivered _ a); lia|].
    intros k ad [H|H]%elem_of_app.
    + apply Ak in H. lia.
    + destruct (delivered _ a); [|by apply elem_of_nil in H].
      apply list_elem_of_singleton in H. injection H as -> _. lia.
  - pose proof (after_reject _ (pkt_data pkt) addr a s E)
      as (-> & -> & -> & -> & _).
    repeat (split; [done|]).
    intros k ad [H|H]%elem_of_app; [by apply Ak in H|].
    case_decide; [|by apply elem_of_nil in H].
    destruct (delivered _ a); [|by apply elem_of_nil in H].
    apply list_elem_of_singleton in H. injection H as -> _. lia.
Qed.

Lemma damaged_inv messages c n s d addr a :
  sys_inv messages (System c n s) →
  GBNServer.dropped d = true →
  sys_inv messages (System c n (GBNServer.after d addr a s)).
Proof.
  intros I D.
  pose proof (after_dropped d addr a s D) as (E & R & S & L & _).
  unfold sys_inv in *. cbn [sender receiver message_index] in *.
  rewrite E, R, S, L. exact I.
Qed.

Lemma on_ack_inv messages c n s k :
  sys_inv messages (System c n s) →
  0 ≤ k < GBNServer.expected_seq_num s →
  sys_inv messages (System (on_ack k c) n s).
Proof.
  intros (N & L & W & B & Wm & Sm & Be & En & Rm & La & Ak) K.
  cbn [sender receiver message_index] in *.
  pose proof (on_ack_frame c k) as (_ & Fn & _ & _ & _ & Fs).
  pose proof (on_ack_base c k) as Fb.
  unfold sys_inv. cbn [sender receiver message_index].
  rewrite Fn, Fs.
  split; [done|]. split; [done|].
  split; [apply on_ack_ok; [lia|done]|].
  split; [rewrite Fb; case_match; lia|].
  split.
  { intros i d. rewrite on_ack_window. case_decide; [done|apply Wm]. }
  split; [done|].
  split; [rewrite Fb; case_match; lia|].
  done.
Qed.

Lemma timeout_inv messages c n s seq atts :
  sys_inv messages (System c n s) →
  sys_inv messages (System (timeout_handler seq atts c) n s).
Proof.
  intros (N & L & W & B & Wm & Sm & Be & En & Rm & La & Ak).
  cbn [sender receiver message_index] in *.
  pose proof (timeout_handler_frame seq atts c) as (Fs & Fb & Fn & Fw & _).
  unfold sys_inv. cbn [sender receiver message_index].
  rewrite Fb, Fn, Fw.
  split; [done|]. split; [done|].
  split; [unfold window_ok in *; by rewrite Fs, Fb, Fn, Fw|].
  split; [done|]. split; [done|]. split; [|done].
  intros pkt [H|H]%timeout_handler_sock; [by apply Sm|].
  split; [|by apply Wm].
  destruct W as (_ & _ & _ & K).
  assert (is_Some (window c !! pkt_seq_num pkt)) as X%K by eauto. lia.
Qed.

Lemma window_add_inv messages c n s data a :
  sys_inv messages (System c n s) →
  window_has_room c = true → messages !! n = Some data →
  sys_inv messages (System (window_add data a c) (S n) s).
Proof.
  intros (N & L & W & B & Wm & Sm & Be & En & Rm & La & Ak) R M.
  cbn [sender receiver message_index] in *.
  pose proof (window_add_frame data a c) as (_ & Fb & Fn & Fw & _).
  unfold sys_inv. cbn [sender receiver message_index].
  rewrite Fb, Fn, Fw, window_add_sock.
  split; [lia|]. split; [apply lookup_lt_Some in M; lia|].
  split; [by apply window_add_ok|]. split; [done|]. split.
  { intros i d. destruct (decide (next_seq_num c = i)) as [<-|D].
    - rewrite lookup_insert_eq. intros [= <-]. by rewrite N, Nat2Z.id.
    - rewrite lookup_insert_ne by done. apply Wm. }
  split.
  { intros pkt [H|H]%elem_of_app.
    - destruct (Sm pkt H). split; [lia|done].
    - destruct (delivered _ a); [|by apply elem_of_nil in H].
      apply list_elem_of_singleton in H. subst pkt. simpl.
      split; [lia|]. by rewrite N, Nat2Z.id. }
  split; [done|]. split; [lia|]. done.
Qed.

Lemma sys_step_inv messages y y' :
  sys_step messages y y' → sys_inv messages y → sys_inv messages y'.
Proof.
  destruct 1 as [y|y data a R M|y seq atts|y pkt addr a I|y d addr a M
                 |y k addr I|y r Nr|y _ _|y]; destruct y as [c n s];
    cbn [sender receiver message_index] in *; intros Inv.
  - exact Inv.
  - by apply window_add_inv.
  - by apply timeout_inv.
  - by apply deliver_inv.
  - by apply damaged_inv.
  - unfold receive_acks_iter. destruct (running c); [|done].
    apply on_ack_inv; [done|].
    destruct Inv as (_ & _ & _ & _ & _ & _ & _ & _ & _ & _ & Ak).
    by apply (Ak k addr).
  - unfold receive_acks_iter.
    destruct (running c), r as [|k| |v]; try done.
    cbn [GBNClient.ack_number] in Nr.
    destruct (on_ack_value_cases v c) as [(k & E & _)|(_ & evs & ->)];
      [congruence|done].
  - exact Inv.
  - exact Inv.
Qed.

Lemma sys_reachable_inv messages ws p q y :
  0 ≤ ws → sys_reachable messages ws p q y → sys_inv messages y.
Proof.
  unfold sys_reachable. intros P R.
  apply (rtc_ind_r (R := sys_step messages) (sys_inv messages)
           (sys_init ws p q)); [| |exact R].
  - unfold sys_inv, sys_init, window_ok. simpl.
    split; [done|]. split; [lia|]. split.
    { split; [lia|]. split; [lia|]. split; [done|].
      intros i. rewrite lookup_empty. split; [intros [? ?]; done|lia]. }
    split; [lia|]. split; [intros i d; by rewrite lookup_empty|].
    split; [intros pkt H; by apply elem_of_nil in H|].
    split; [lia|]. split; [lia|]. split; [done|]. split; [lia|].
    intros k addr H. by apply elem_of_nil in H.
  - intros y1 y2 _ S I. by eapply sys_step_inv.
Qed.

Lemma imap_data (f : nat → Z) (l : list string) :
  GBNServer.msg_data <$> imap (λ i (d : string), GBNServer.Message (f i) d) l
  = JString <$> l.
Proof.
  revert f. induction l as [|x l IH]; intros f; [done|].
  rewrite imap_cons, !fmap_cons. simpl. f_equal. apply (IH (f ∘ S)).
Qed.

Lemma accepted_data messages n :
  GBNServer.msg_data <$> accepted messages n
  = JString <$> take (Z.to_nat n) messages.
Proof. unfold accepted. apply imap_data. Qed.

Lemma complete_inv messages y :
  sys_inv messages y → transfer_complete messages y →
  base (sender y) = Z.of_nat (length messages) ∧
  next_seq_num (sender y) = Z.of_nat (length messages) ∧
  GBNServer.expected_seq_num (receiver y) = Z.of_nat (length messages) ∧
  GBNServer.msg_data <$> GBNServer.received_messages (receiver y)
  = JString <$> messages.
Proof.
  intros (N & L & W & B & Wm & Sm & Be & En & Rm & La & Ak) (C & E).
  destruct W as (_ & _ & S & _). rewrite E in S.
  assert (X : GBNServer.expected_seq_num (receiver y)
              = Z.of_nat (length messages)) by lia.
  split; [lia|]. split; [lia|]. split; [done|].
  rewrite Rm, accepted_data, X, Nat2Z.id. by rewrite firstn_all.
Qed.

(** Extra X13.  In a session of [send_data messages] against a receiver,
    over a channel that may lose, duplicate, delay, reorder and damage
    datagrams, and whatever timers fire: in every state of the session (the
    states between two method calls) the receiver's log is exactly the first
    [expected_seq_num] messages, in order, numbered from [0]; and
    [base <= expected_seq_num <= next_seq_num], where [next_seq_num] is the
    number of messages taken so far. *)
Theorem in_order_delivery (messages : list string) (ws : Z) (p q : Q)
    (y : system) :
  0 ≤ ws →
  sys_reachable messages ws p q y →
  GBNServer.received_messages (receiver y)
    = accepted messages (GBNServer.expected_seq_num (receiver y)) ∧
  GBNServer.msg_data <$> GBNServer.received_messages (receiver y)
    = JString <$>
      take (Z.to_nat (GBNServer.expected_seq_num (receiver y))) messages ∧
  base (sender y) ≤ GBNServer.expected_seq_num (receiver y) ∧
  GBNServer.expected_seq_num (receiver y) ≤ next_seq_num (sender y) ∧
  next_seq_num (sender y) = Z.of_nat (message_index y) ∧
  (message_index y ≤ length messages)%nat.
Proof.
  intros P R.
  destruct (sys_reachable_inv messages ws p q y P R)
    as (N & L & W & B & Wm & Sm & Be & En & Rm & La & Ak).
  split; [done|]. split; [by rewrite Rm, accepted_data|]. done.
Qed.

(** Extra X14.  When the main loop of [send_data] ends (every message has
    been taken and the window is empty), the receiver has accepted exactly
    the messages that were submitted, in their order, whatever the channel
    lost, duplicated or reordered on the way. *)
Theorem transfer_complete_delivers_all (messages : list string) (ws : Z)
    (p q : Q) (y : system) :
  0 ≤ ws →
  sys_reachable messages ws p q y →
  transfer_complete messages y →
  GBNServer.msg_data <$> GBNServer.received_messages (receiver y)
    = JString <$> messages ∧
  GBNServer.expected_seq_num (receiver y) = Z.of_nat (length messages) ∧
  base (sender y) = Z.of_nat (length messages).
Proof.
  intros P R C.
  destruct (complete_inv messages y (sys_reachable_inv _ _ _ _ _ P R) C)
    as (B & _ & E & D).
  done.
Qed.

(** Extra X15.  In such a session every ACK the receiver has put on its
    socket names a sequence number the sender has assigned, every data
    datagram the sender has put on its socket carries the message with that
    index, and the sender's window invariant holds:
    [0 <= next_seq_num - base <= window_size] with exactly
    [next_seq_num - base] window entries. *)
Theorem session_window_invariant (messages : list string) (ws : Z) (p q : Q)
    (y : system) :
  0 ≤ ws →
  sys_reachable messages ws p q y →
  (∀ k addr, (k, addr) ∈ GBNServer.sock (receiver y) →
             0 ≤ k < next_seq_num (sender y)) ∧
  (∀ pkt, pkt ∈ sock (sender y) →
          messages !! Z.to_nat (pkt_seq_num pkt) = Some (pkt_data pkt)) ∧
  0 ≤ next_seq_num (sender y) - base (sender y) ≤ window_size (sender y) ∧
  Z.of_nat (size (window (sender y)))
    = next_seq_num (sender y) - base (sender y).
Proof.
  intros P R.
  destruct (sys_reachable_inv messages ws p q y P R)
    as (N & L & W & B & Wm & Sm & Be & En & Rm & La & Ak).
  destruct W as (W1 & W2 & W3 & _).
  split; [intros k addr H; apply Ak in H; lia|].
  split; [intros pkt H; by apply Sm|]. split; [lia|done].
Qed.

(** ** A run that completes *)













Lemma one_delivered_reachable :
  sys_reachable ["a"%string] 3 0 0 one_delivered.
Proof.
  unfold sys_reachable, one_delivered.
  eapply rtc_l; [apply (sys_start _ (sys_init 3 0 0))|].
  eapply rtc_l; [apply (sys_add _ _ "a"%string clean); reflexivity|].
  eapply rtc_l.
  { apply (sys_deliver _ _ (Packet 0 "a") ("localhost"%string, 5000) clean).
    change (Packet 0 "a" ∈ [Packet 0 "a"]).
    by apply list_elem_of_singleton. }
  eapply rtc_l.
  { apply (sys_ack _ _ 0 ("localhost"%string, 5000)).
    change ((0, ("localhost"%string, 5000))
              ∈ [(0, ("localhost"%string, 5000))]).
    by apply list_elem_of_singleton. }
  apply rtc_refl.
Defined.

Lemma in_order_delivery_witness :
  GBNServer.msg_data <$> GBNServer.received_messages (receiver one_delivered)
    = [JString "a"] ∧
  base (sender one_delivered)
    ≤ GBNServer.expected_seq_num (receiver one_delivered).
Proof.
  destruct (in_order_delivery ["a"%string] 3 0 0 one_delivered)
    as (_ & D & B & _); [lia|exact one_delivered_reachable|].
  split; [exact D|exact B].
Defined.

Lemma transfer_complete_delivers_all_witness :
  transfer_complete ["a"%string] one_delivered ∧
  GBNServer.msg_data <$> GBNServer.received_messages (receiver one_delivered)
    = [JString "a"].
Proof.
  assert (C : transfer_complete ["a"%string] one_delivered).
  { split; [simpl; lia|reflexivity]. }
  split; [exact C|].
  apply (transfer_complete_delivers_all ["a"%string] 3 0 0 one_delivered);
    [lia|exact one_delivered_reachable|exact C].
Defined.

Lemma session_window_invariant_witness :
  0 ≤ next_seq_num (sender one_delivered) - base (sender one_delivered)
    ≤ window_size (sender one_delivered).
Proof.
  destruct (session_window_invariant ["a"%string] 3 0 0 one_delivered)
    as (_ & _ & W & _); [lia|exact one_delivered_reachable|].
  exact W.
Defined.

End session.

(** * Further properties of the derived metrics *)
Section metrics_bounds.
Import Metrics.
Local Open Scope Q_scope.

Lemma truediv_percent (x y : Z) :
  (0 ≤ x ≤ y)%Z → (0 < y)%Z →
  0 <= truediv x y * 100 ∧ truediv x y * 100 <= 100.
Proof.
  intros H P. destruct y as [|y|y]; try lia.
  unfold truediv, Qle, Qdiv, Qmult, Qinv. simpl. split; nia.
Qed.

Lemma reachable_stats ws p c :
  GBNClient.reachable ws p c →
  (0 ≤ GBNClient.retransmissions (GBNClient.stats c)
     ≤ GBNClient.packets_sent (GBNClient.stats c))%Z ∧
  (0 ≤ GBNClient.packets_lost (GBNClient.stats c))%Z.
Proof.
  intros R. pose proof (reachable_counters ws p c R) as (_ & C).
  split; [done|].
  apply run_advances in R as (_ & _ & _ & _ & _ & _ & _ & L). exact L.
Qed.

(** Extra X17.  On the counters of any state a sender reaches, the loss rate
    of the analyzer lies between 0 and 100, and whenever [print_statistics]
    computes its two rates (a packet was sent) both lie between 0 and 100;
    the analyzer's retransmission rate is its overhead ratio times 100, and
    its timeout count is the retransmission counter. *)
Theorem rates_are_percentages (ws : Z) (p : Q) (c : GBNClient.client)
    (t : Q) (n : Z) :
  GBNClient.reachable ws p c →
  let m := calculate_advanced_metrics (GBNClient.stats c) t n in
  (0 <= effective_loss_rate m ∧ effective_loss_rate m <= 100) ∧
  (∀ l r, print_statistics_rates (GBNClient.stats c) = Some (l, r) →
          (0 <= l ∧ l <= 100) ∧ (0 <= r ∧ r <= 100)) ∧
  retransmission_rate m == overhead_ratio m * 100 ∧
  timeout_count m = GBNClient.retransmissions (GBNClient.stats c).
Proof.
  intros R. apply reachable_stats in R as (X & L). cbv zeta.
  unfold calculate_advanced_metrics, print_statistics_rates. simpl.
  set (st := GBNClient.stats c) in *.
  split; [|split; [|split; [|done]]].
  - destruct (Z.ltb_spec 0 (GBNClient.packets_sent st + GBNClient.packets_lost st));
      [apply truediv_percent; lia|split; discriminate].
  - intros l r. destruct (Z.ltb_spec 0 (GBNClient.packets_sent st)); [|done].
    intros [= <- <-]. split; apply truediv_percent; lia.
  - destruct (0 <? n)%Z; [reflexivity|]. reflexivity.
Qed.

Lemma rates_are_percentages_witness :
  0 <= effective_loss_rate
         (calculate_advanced_metrics
            (GBNClient.stats GBNClient.two_in_flight) 2 2).
Proof.
  exact (proj1 (proj1 (rates_are_percentages 3 0 GBNClient.two_in_flight 2 2
                         two_in_flight_reachable))).
Defined.

End metrics_bounds.

(** * Binding the receiver's socket *)
Section binding.
Import GBNServer.

Lemma try_ports_spec bind ports :
  match try_ports bind ports with
  | Some port =>
      ∃ before after,
        ports = before ++ port :: after ∧ bind port = BindOk ∧
        Forall (λ p, bind p ≠ BindOk) before
  | None => Forall (λ p, bind p ≠ BindOk) ports
  end.
Proof.
  induction ports as [|p ports IH]; simpl; [done|].
  destruct (bind p) eqn:E.
  - exists [], ports. by repeat split.
  - destruct (try_ports bind ports) as [port|].
    + destruct IH as (before & after & -> & B & F).
      exists (p :: before), after. repeat split; [done|].
      constructor; [congruence|done].
    + constructor; [congruence|done].
  - destruct (try_ports bind ports) as [port|].
    + destruct IH as (before & after & -> & B & F).
      exists (p :: before), after. repeat split; [done|].
      constructor; [congruence|done].
    + constructor; [congruence|done].
Qed.

Lemma fallback_before before port after p :
  fallback_ports = before ++ port :: after →
  12346 ≤ port ≤ 12355 ∧ (12346 ≤ p < port → p ∈ before).
Proof.
  intros E.
  assert (I : ∀ i x, fallback_ports !! i = Some x → x = 12346 + Z.of_nat i
                     ∧ (i < 10)%nat).
  { intros i x H. apply lookup_seqZ in H. lia. }
  assert (Hp : fallback_ports !! length before = Some port).
  { rewrite E. by apply list_lookup_middle. }
  apply I in Hp as (-> & L). split; [lia|]. intros Hr.
  assert (Hl : fallback_ports !! Z.to_nat (p - 12346) = Some p).
  { unfold fallback_ports. rewrite lookup_seqZ_lt by lia. f_equal. lia. }
  rewrite E, lookup_app_l in Hl by lia.
  by eapply list_elem_of_lookup_2.
Qed.

(** Extra X18.  [_create_socket] binds the requested port whenever binding
    it succeeds.  If the requested port is in use it binds the lowest port of
    12346..12355 on which binding succeeds, whatever port was requested; it
    raises when the first bind fails for another reason, or when the port is
    in use and none of the ten fallback ports can be bound.  The port it
    ends on is always one that was bound. *)
Theorem create_socket_port (bind : Z → bind_result) (port : Z) :
  (bind port = BindOk → create_socket bind port = Bound port) ∧
  (∀ p, create_socket bind port = Bound p →
     bind p = BindOk ∧
     (p = port ∨
      (bind port = AddressInUse ∧ 12346 ≤ p ≤ 12355 ∧
       ∀ p', 12346 ≤ p' < p → bind p' ≠ BindOk))) ∧
  (create_socket bind port = Raised ↔
     bind port = BindError ∨
     (bind port = AddressInUse ∧
      ∀ p', 12346 ≤ p' ≤ 12355 → bind p' ≠ BindOk)).
Proof.
  unfold create_socket.
  pose proof (try_ports_spec bind fallback_ports) as T.
  split; [by intros ->|]. split.
  - intros p. destruct (bind port) eqn:E.
    + intros [= <-]. auto.
    + destruct (try_ports bind fallback_ports) as [q|]; [|done].
      intros [= <-]. destruct T as (before & after & Ef & B & F).
      split; [done|]. right. split; [done|].
      split; [by eapply (fallback_before _ _ _ q)|].
      intros p' Hp'. eapply (proj1 (Forall_forall _ _) F).
      by eapply (fallback_before before q after p').
    + done.
  - destruct (bind port) eqn:E.
    + split; [done|]. intros [?|[? _]]; done.
    + destruct (try_ports bind fallback_ports) as [q|].
      * split; [done|]. intros [?|[_ N]]; [done|].
        destruct T as (before & after & Ef & B & _).
        destruct (N q); [|done]. by eapply (fallback_before _ _ _ q).
      * split; [|done]. intros _. right. split; [done|].
        intros p' Hp'. eapply (proj1 (Forall_forall _ _) T).
        apply elem_of_seqZ. lia.
    + split; [by left|done].
Qed.

Lemma create_socket_port_witness :
  create_socket (λ p, if p =? 12348 then BindOk else AddressInUse) 12345
  = Bound 12348 ∧
  create_socket (λ p, BindOk) 12345 = Bound 12345.
Proof.
  split; [reflexivity|].
  exact (proj1 (create_socket_port (λ p, BindOk) 12345) eq_refl).
Defined.

End binding.

(** * Naming the log file *)
Section log_file.
Import LogFile.

Lemma length_append (a b : string) :
  String.length (a +:+ b) = (String.length a + String.length b)%nat.
Proof. induction a as [|c a IH]; simpl; [done|]. by rewrite IH. Qed.

Lemma substring_0_app (b c : string) :
  String.substring 0 (String.length b) (b +:+ c) = b.
Proof.
  induction b as [|x b IH]; simpl.
  - by destruct c.
  - by rewrite IH.
Qed.

Lemma substring_skip (a b : string) m :
  String.substring (String.length a) m (a +:+ b) = String.substring 0 m b.
Proof. induction a as [|x a IH]; simpl; [done|]. exact IH. Qed.

Lemma substring_all (b : string) : String.substring 0 (String.length b) b = b.
Proof. induction b as [|x b IH]; simpl; [done|]. by rewrite IH. Qed.

Lemma endswith_app (a suffix : string) : endswith suffix (a +:+ suffix) = true.
Proof.
  unfold endswith. rewrite length_append.
  apply andb_true_intro. split; [apply Nat.leb_le; lia|].
  replace (String.length a + String.length suffix - String.length suffix)%nat
    with (String.length a) by lia.
  rewrite substring_skip, substring_all. apply String.eqb_refl.
Qed.

Lemma startswith_app (a b : string) : startswith a (a +:+ b) = true.
Proof.
  unfold startswith. induction a as [|x a IH]; [by destruct b|].
  change (String x a +:+ b) with (String x (a +:+ b)).
  cbn [String.prefix]. by destruct (Ascii.ascii_dec x x).
Qed.

Lemma append_assoc (a b c : string) : (a +:+ b) +:+ c = a +:+ (b +:+ c).
Proof.
  induction a as [|x a IH]; [done|].
  change (String x ((a +:+ b) +:+ c) = String x (a +:+ b +:+ c)).
  by f_equal.
Qed.

(** Decimal digits, printed and read back. *)
Lemma is_nat_pretty_char d :
  (d < 10)%N → Ascii.is_nat (pretty_N_char d) = Some (N.to_nat d).
Proof.
  intros H.
  assert (d = 0 ∨ d = 1 ∨ d = 2 ∨ d = 3 ∨ d = 4 ∨ d = 5 ∨ d = 6 ∨ d = 7
          ∨ d = 8 ∨ d = 9)%N as X by lia.
  repeat (destruct X as [->|X]; [reflexivity|]). by subst.
Qed.

Lemma decimal_step (acc pk q r x : N) :
  (x = 10 * q + r → 10 * (acc * pk + q) + r = acc * (pk * 10) + x)%N.
Proof. intros ->. ring. Qed.

Lemma pretty_go_digits x s :
  all_digits (pretty_N_go x s) = all_digits s ∧
  (∀ acc, ∃ k, int_go acc (pretty_N_go x s) = int_go (acc * 10 ^ k + x) s) ∧
  ((0 < x)%N → pretty_N_go x s ≠ EmptyString).
Proof.
  revert s. induction (N.lt_wf_0 x) as [x _ IH]; intros s.
  assert (x = 0 ∨ 0 < x)%N as [->|P] by lia.
  - rewrite pretty_N_go_0. split; [done|]. split; [|lia].
    intros acc. exists 0%N. f_equal. lia.
  - rewrite pretty_N_go_step by done.
    assert (L : (x `div` 10 < x)%N) by (by apply N.div_lt).
    assert (M : (x `mod` 10 < 10)%N) by (by apply N.mod_lt).
    destruct (IH _ L (String (pretty_N_char (x `mod` 10)) s)) as (D & I & Z).
    split; [|split].
    + rewrite D. simpl. rewrite is_nat_pretty_char by done.
      by rewrite bool_decide_true by eauto.
    + intros acc. destruct (I acc) as [k Hk]. exists (k + 1)%N.
      rewrite Hk. simpl. rewrite is_nat_pretty_char by done. simpl.
      f_equal. rewrite N2Nat.id, N.pow_add_r, N.pow_1_r.
      apply decimal_step, N.div_mod. lia.
    + intros _. destruct (decide (0 < x `div` 10)%N) as [Q|Q]; [by apply Z|].
      apply N.nlt_ge, N.le_0_r in Q. rewrite Q. by rewrite pretty_N_go_0.
Qed.

Lemma pretty_isdigit (n : N) :
  isdigit (pretty n) = true ∧ int (pretty n) = n ∧ pretty n ≠ EmptyString.
Proof.
  unfold pretty, pretty_N. case_decide as E.
  - subst. by repeat split.
  - destruct (pretty_go_digits n "") as (D & I & Z).
    assert (P : (0 < n)%N) by lia. specialize (Z P).
    split; [|split; [|done]].
    + unfold isdigit. destruct (pretty_N_go n ""); [done|]. by rewrite D.
    + unfold int. destruct (I 0%N) as [k ->]. simpl. lia.
Qed.

Lemma file_number_basename (n : N) : file_number (log_basename n) = Some n.
Proof.
  unfold log_basename. case_decide as E; [by subst|].
  destruct (pretty_isdigit n) as (D & I & Z).
  set (d := pretty n) in *.
  unfold file_number.
  assert (String.eqb ("demo_run" +:+ d +:+ ".log") "demo_run.log" = false) as ->.
  { apply String.eqb_neq. intros H.
    apply (f_equal String.length) in H. rewrite !length_append in H.
    simpl in H. destruct d; [done|]. simpl in H. lia. }
  assert (startswith "demo_run" ("demo_run" +:+ d +:+ ".log") = true) as ->
    by apply startswith_app.
  assert (endswith ".log" ("demo_run" +:+ d +:+ ".log") = true) as ->.
  { rewrite <- append_assoc. apply endswith_app. }
  assert (slice_8_m4 ("demo_run" +:+ d +:+ ".log") = d) as ->.
  { unfold slice_8_m4. rewrite !length_append.
    change (String.length "demo_run") with 8%nat.
    change (String.length ".log") with 4%nat.
    replace (8 + (String.length d + 4) - 12)%nat with (String.length d) by lia.
    change 8%nat with (String.length "demo_run") at 1.
    rewrite substring_skip. apply substring_0_app. }
  simpl. by rewrite D, I.
Qed.

Lemma max_number_ge numbers k : k ∈ numbers → (k ≤ max_number numbers)%N.
Proof.
  induction numbers as [|x numbers IH]; [by intros ?%elem_of_nil|].
  intros [->|H]%elem_of_cons; simpl; [lia|]. specialize (IH H). lia.
Qed.

Lemma session_number_above existing f k :
  f ∈ existing → file_number f = Some k →
  (k < get_next_session_number existing)%N.
Proof.
  intros I E.
  assert (X : k ∈ omap file_number existing).
  { apply list_elem_of_omap. eauto. }
  unfold get_next_session_number.
  destruct existing as [|f0 rest]; [by apply elem_of_nil in I|].
  destruct (omap file_number (f0 :: rest)) as [|x numbers];
    [by apply elem_of_nil in X|].
  apply max_number_ge in X. lia.
Qed.

(** Extra X19.  The session number that [_get_next_session_number] returns
    is above the number of every existing file that has one
    ([demo_run.log] counts as 0, [demo_run<digits>.log] as the value of its
    digits); it is [0] exactly when no existing file has a number. *)
Theorem session_number_above_existing (existing : list string) :
  (∀ f k, f ∈ existing → file_number f = Some k →
          (k < get_next_session_number existing)%N) ∧
  (get_next_session_number existing = 0%N ↔
   ∀ f, f ∈ existing → file_number f = None).
Proof.
  split; [intros f k; apply session_number_above|].
  split.
  - intros Z f I. destruct (file_number f) as [k|] eqn:E; [|done].
    pose proof (session_number_above existing f k I E). lia.
  - intros A. unfold get_next_session_number.
    destruct existing as [|f0 rest]; [done|].
    destruct (omap file_number (f0 :: rest)) as [|x numbers] eqn:O; [done|].
    assert (x ∈ omap file_number (f0 :: rest)) as X.
    { rewrite O. apply elem_of_cons. by left. }
    apply list_elem_of_omap in X as (f & I & E). rewrite A in E; done.
Qed.

Lemma session_number_above_existing_witness :
  file_number "demo_run07.log" = Some 7%N ∧
  (7 < get_next_session_number
         ["demo_run.log"; "notes.txt"; "demo_run07.log"]%string)%N.
Proof.
  split; [reflexivity|].
  apply (proj1 (session_number_above_existing
                  ["demo_run.log"; "notes.txt"; "demo_run07.log"]%string)
           "demo_run07.log"%string 7%N); [|reflexivity].
  apply elem_of_cons. right. apply elem_of_cons. right.
  apply elem_of_cons. by left.
Defined.

(** Extra X20.  The log file name chosen for a new session is never the
    name of an existing file, so opening it for writing truncates no earlier
    session log; and the number of the chosen name, read back the way the
    code reads names, is the session number. *)
Theorem log_filename_fresh (existing : list string) :
  (get_log_filename existing ∉ existing) ∧
  file_number (get_log_filename existing)
    = Some (get_next_session_number existing).
Proof.
  unfold get_log_filename.
  pose proof (file_number_basename (get_next_session_number existing)) as E.
  split; [|done]. intros I.
  pose proof (session_number_above existing _ _ I E). lia.
Qed.

Lemma log_filename_fresh_witness :
  get_log_filename ["demo_run.log"; "demo_run1.log"; "demo_run07.log"]%string
    = "demo_run8.log"%string ∧
  ("demo_run8.log"%string
     ∉ ["demo_run.log"; "demo_run1.log"; "demo_run07.log"]%string).
Proof.
  split; [reflexivity|].
  exact (proj1 (log_filename_fresh
                  ["demo_run.log"; "demo_run1.log"; "demo_run07.log"]%string)).
Defined.

End log_file.
